(** * Suistody Core: the agent vault and its off-chain policy pre-check

    A shallow embedding of [contracts/sources/agent_vault.move] (the
    authoritative, on-chain enforcement path) and of [checkPolicy] from
    [lib/agent/policy-checker.ts] (the advisory mirror), followed by the
    properties of the account model, the ordered rule evaluation and the
    relation between the two paths.

    Conventions.
    - A Move [u64] or [u8] is a [Z]; Move arithmetic does not wrap: an
      addition that overflows or a subtraction that underflows aborts the
      transaction, which [add_u64] and [sub_u64] write out.
    - A Move function over [&mut Vault] and [&mut TxContext] is a
      computation in the [Tx] monad: it threads a [Store] and either
      finishes with a value or fails, keeping the store as it stood at the
      point of failure.
    - A TypeScript [bigint] is a [Z].  A [number] that holds an integer is
      a [Z] as well; this is exact for the safe integers, up to 2^53 - 1,
      where the arithmetic of doubles is the arithmetic of integers, and
      the properties that compute with numbers are stated for those. *)

From Stdlib Require Import ZArith List Bool Lia String DecimalString.
Import ListNotations.
Open Scope Z_scope.

(** ** Machine integers *)

Definition MAX_U64 : Z := 18446744073709551615.
Definition MAX_U8 : Z := 255.

Definition in_u64 (x : Z) : Prop := 0 <= x <= MAX_U64.
Definition in_u8 (x : Z) : Prop := 0 <= x <= MAX_U8.

(** [Number.MAX_SAFE_INTEGER]: up to here a [number] holds every natural
    number exactly, and so their differences. *)
Definition MAX_SAFE_INTEGER : Z := 9007199254740991.

Definition safe_natural (x : Z) : Prop := 0 <= x <= MAX_SAFE_INTEGER.

(** ** Identifiers, addresses and the transaction context *)

Definition ID := Z.
Definition address := Z.

Record UID := { to_inner : ID }.

(** [sui::tx_context]: [fresh] stands for the next identifier that
    [object::new] hands out; the framework guarantees that no identifier is
    ever handed out twice. *)
Record TxContext := { sender : address; fresh : ID }.

Record Clock := { timestamp_ms : Z }.

(** ** Structs of [agent_vault] *)

(** Fields keep their names; [id] and [vault_id], which several structs
    declare, are prefixed with the name of their struct. *)

Record Balance := { value : Z }.

Record Coin := { coin_id : UID; coin_balance : Balance }.

Record Policy := {
  max_budget : Z;
  max_per_tx : Z;
  allowed_actions : list Z;
  cooldown_ms : Z;
  expires_at : Z
}.

Record Vault := {
  vault_uid : UID;
  owner : address;
  balance_sui : Balance;
  policy : Policy;
  authorized_caps : list ID;
  total_spent : Z;
  last_tx_time : Z;
  tx_count : Z
}.

Record AgentCap := { agent_cap_uid : UID; agent_cap_vault_id : ID }.

Record OwnerCap := { owner_cap_uid : UID; owner_cap_vault_id : ID }.

(** ** Events *)

Inductive Event :=
| VaultCreated (vault_id : ID) (owner_ : address) (initial_balance max_budget_ : Z)
| AgentWithdrawal (vault_id agent_cap_id : ID) (amount action_type
                   total_spent_ remaining_budget tx_count_ timestamp : Z)
| PolicyUpdated (vault_id : ID) (max_budget_ max_per_tx_ cooldown_ms_ expires_at_ : Z)
| AgentCapCreated (vault_id cap_id : ID) (agent_address : address)
| AgentCapRevoked (vault_id cap_id : ID)
| Deposited (vault_id : ID) (amount new_balance : Z)
| WithdrawnAll (vault_id : ID) (amount : Z).

(** Objects handed to [transfer::transfer]. *)
Inductive Object :=
| OwnerCapObject (c : OwnerCap)
| AgentCapObject (c : AgentCap).

(** ** Error constants *)

Definition E_NOT_OWNER : Z := 0.
Definition E_BUDGET_EXCEEDED : Z := 1.
Definition E_NOT_WHITELISTED : Z := 2.
Definition E_EXPIRED : Z := 3.
Definition E_COOLDOWN : Z := 4.
Definition E_INVALID_CAP : Z := 5.
Definition E_INSUFFICIENT_BALANCE : Z := 6.
Definition E_PER_TX_EXCEEDED : Z := 7.
Definition E_ZERO_AMOUNT : Z := 8.

(** [sui::balance::ENotEnough]. *)
Definition ENotEnough : Z := 2.

(** [std::vector::EINDEX_OUT_OF_BOUNDS]. *)
Definition EINDEX_OUT_OF_BOUNDS : Z := 131072.

(** ** The transaction monad *)

Inductive Location := agent_vault_module | balance_module | vector_module.

Inductive Failure :=
| MoveAbort (location : Location) (code : Z)
| ArithmeticError.

Record Store := {
  s_vault : Vault;
  s_ctx : TxContext;
  s_events : list Event;
  s_transfers : list (Object * address)
}.

Inductive Outcome (A : Type) :=
| Done (a : A) (s : Store)
| Failed (f : Failure) (s : Store).
Arguments Done {A} a s.
Arguments Failed {A} f s.

Definition Tx (A : Type) : Type := Store -> Outcome A.

Definition ret {A} (a : A) : Tx A := fun s => Done a s.

Definition bind {A B} (m : Tx A) (k : A -> Tx B) : Tx B :=
  fun s => match m s with
           | Done a s' => k a s'
           | Failed f s' => Failed f s'
           end.

Declare Scope tx_scope.
Delimit Scope tx_scope with tx.
Notation "x <- m ;; k" := (bind m (fun x => k))
  (at level 61, m at next level, right associativity) : tx_scope.
Notation "m ;; k" := (bind m (fun _ => k))
  (at level 61, right associativity) : tx_scope.
Open Scope tx_scope.

Definition abort {A} (f : Failure) : Tx A := fun s => Failed f s.

(** [assert!(cond, code)] inside [agent_vault]. *)
Definition assert_ (cond : bool) (code : Z) : Tx unit :=
  if cond then ret tt else abort (MoveAbort agent_vault_module code).

Definition add_u64 (a b : Z) : Tx Z :=
  if a + b <=? MAX_U64 then ret (a + b) else abort ArithmeticError.

Definition sub_u64 (a b : Z) : Tx Z :=
  if b <=? a then ret (a - b) else abort ArithmeticError.

(** Reading a field through the [&mut Vault] reference. *)
Definition read {A} (f : Vault -> A) : Tx A := fun s => Done (f (s_vault s)) s.

Definition update_vault (f : Vault -> Vault) : Tx unit :=
  fun s => Done tt {| s_vault := f (s_vault s); s_ctx := s_ctx s;
                      s_events := s_events s; s_transfers := s_transfers s |}.

Definition emit (e : Event) : Tx unit :=
  fun s => Done tt {| s_vault := s_vault s; s_ctx := s_ctx s;
                      s_events := s_events s ++ [e];
                      s_transfers := s_transfers s |}.

Definition transfer (o : Object) (recipient : address) : Tx unit :=
  fun s => Done tt {| s_vault := s_vault s; s_ctx := s_ctx s;
                      s_events := s_events s;
                      s_transfers := s_transfers s ++ [(o, recipient)] |}.

(** [object::new]. *)
Definition object_new : Tx UID :=
  fun s => Done {| to_inner := fresh (s_ctx s) |}
                {| s_vault := s_vault s;
                   s_ctx := {| sender := sender (s_ctx s);
                               fresh := fresh (s_ctx s) + 1 |};
                   s_events := s_events s; s_transfers := s_transfers s |}.

(** [object::id] on a vault and on the two capabilities. *)
Definition object_id (v : Vault) : ID := to_inner (vault_uid v).
Definition agent_cap_id (c : AgentCap) : ID := to_inner (agent_cap_uid c).

(** ** Field assignments *)

Definition set_balance_sui (b : Balance) (v : Vault) : Vault :=
  {| vault_uid := vault_uid v; owner := owner v; balance_sui := b;
     policy := policy v; authorized_caps := authorized_caps v;
     total_spent := total_spent v; last_tx_time := last_tx_time v;
     tx_count := tx_count v |}.

Definition set_policy (p : Policy) (v : Vault) : Vault :=
  {| vault_uid := vault_uid v; owner := owner v; balance_sui := balance_sui v;
     policy := p; authorized_caps := authorized_caps v;
     total_spent := total_spent v; last_tx_time := last_tx_time v;
     tx_count := tx_count v |}.

Definition set_authorized_caps (l : list ID) (v : Vault) : Vault :=
  {| vault_uid := vault_uid v; owner := owner v; balance_sui := balance_sui v;
     policy := policy v; authorized_caps := l;
     total_spent := total_spent v; last_tx_time := last_tx_time v;
     tx_count := tx_count v |}.

Definition set_total_spent (x : Z) (v : Vault) : Vault :=
  {| vault_uid := vault_uid v; owner := owner v; balance_sui := balance_sui v;
     policy := policy v; authorized_caps := authorized_caps v;
     total_spent := x; last_tx_time := last_tx_time v;
     tx_count := tx_count v |}.

Definition set_last_tx_time (x : Z) (v : Vault) : Vault :=
  {| vault_uid := vault_uid v; owner := owner v; balance_sui := balance_sui v;
     policy := policy v; authorized_caps := authorized_caps v;
     total_spent := total_spent v; last_tx_time := x;
     tx_count := tx_count v |}.

Definition set_tx_count (x : Z) (v : Vault) : Vault :=
  {| vault_uid := vault_uid v; owner := owner v; balance_sui := balance_sui v;
     policy := policy v; authorized_caps := authorized_caps v;
     total_spent := total_spent v; last_tx_time := last_tx_time v;
     tx_count := x |}.

(** ** [std::vector] *)

(** [vector::index_of]: whether [e] occurs, and the index of its first
    occurrence (0 when it does not occur). *)
Fixpoint index_of (l : list Z) (e : Z) : bool * nat :=
  match l with
  | [] => (false, 0%nat)
  | x :: rest =>
      if x =? e then (true, 0%nat)
      else let '(found, i) := index_of rest e in
           if found then (true, S i) else (false, 0%nat)
  end.

(** [vector::contains]. *)
Fixpoint contains (l : list Z) (e : Z) : bool :=
  match l with
  | [] => false
  | x :: rest => if x =? e then true else contains rest e
  end.

(** The vector without its element at index [i]. *)
Fixpoint remove (l : list Z) (i : nat) : list Z :=
  match l, i with
  | [], _ => []
  | _ :: rest, O => rest
  | x :: rest, S j => x :: remove rest j
  end.

(** [vector::remove]: aborts when the index is out of bounds. *)
Definition vector_remove (l : list Z) (i : nat) : Tx (list Z) :=
  if (i <? List.length l)%nat then ret (remove l i)
  else abort (MoveAbort vector_module EINDEX_OUT_OF_BOUNDS).

Definition push_back (l : list Z) (e : Z) : list Z := l ++ [e].

(** ** [sui::balance] and [sui::coin] *)

(** [balance::join] adds the two values with checked arithmetic. *)
Definition balance_join (b : Balance) : Tx Z :=
  cur <- read (fun v => value (balance_sui v)) ;;
  sum <- add_u64 cur (value b) ;;
  update_vault (set_balance_sui {| value := sum |}) ;;
  ret sum.

(** [balance::split] takes [amount] out of the vault's balance. *)
Definition balance_split (amount : Z) : Tx Balance :=
  cur <- read (fun v => value (balance_sui v)) ;;
  (if amount <=? cur then ret tt
   else abort (MoveAbort balance_module ENotEnough)) ;;
  update_vault (set_balance_sui {| value := cur - amount |}) ;;
  ret {| value := amount |}.

(** [coin::from_balance] wraps a balance in a coin with a new identifier. *)
Definition from_balance (b : Balance) : Tx Coin :=
  uid <- object_new ;;
  ret {| coin_id := uid; coin_balance := b |}.

Definition coin_value (c : Coin) : Z := value (coin_balance c).
Definition into_balance (c : Coin) : Balance := coin_balance c.

(** ** Public functions of [agent_vault] *)

(** [create_vault]: the shared vault, the owner capability transferred to
    the sender and the [VaultCreated] event, as the store of the creating
    transaction. *)
Definition create_vault (coin : Coin) (max_budget_ max_per_tx_ : Z)
    (allowed_actions_ : list Z) (cooldown_ms_ expires_at_ : Z)
    (_clock : Clock) (ctx : TxContext) : Store :=
  let vault_uid_ := {| to_inner := fresh ctx |} in
  let vault_id := to_inner vault_uid_ in
  let initial_balance := coin_value coin in
  let vault :=
    {| vault_uid := vault_uid_;
       owner := sender ctx;
       balance_sui := into_balance coin;
       policy := {| max_budget := max_budget_;
                    max_per_tx := max_per_tx_;
                    allowed_actions := allowed_actions_;
                    cooldown_ms := cooldown_ms_;
                    expires_at := expires_at_ |};
       authorized_caps := [];
       total_spent := 0;
       last_tx_time := 0;
       tx_count := 0 |} in
  let owner_cap :=
    {| owner_cap_uid := {| to_inner := fresh ctx + 1 |};
       owner_cap_vault_id := vault_id |} in
  {| s_vault := vault;
     s_ctx := {| sender := sender ctx; fresh := fresh ctx + 2 |};
     s_events := [VaultCreated vault_id (sender ctx) initial_balance max_budget_];
     s_transfers := [(OwnerCapObject owner_cap, sender ctx)] |}.

(** The guard shared by every owner-only function. *)
Definition assert_owner (owner_cap : OwnerCap) : Tx unit :=
  vid <- read object_id ;;
  assert_ (owner_cap_vault_id owner_cap =? vid) E_NOT_OWNER.

Definition deposit (owner_cap : OwnerCap) (coin : Coin) : Tx unit :=
  assert_owner owner_cap ;;
  let amount := coin_value coin in
  balance_join (into_balance coin) ;;
  vid <- read object_id ;;
  new_balance <- read (fun v => value (balance_sui v)) ;;
  emit (Deposited vid amount new_balance).

Definition withdraw_all (owner_cap : OwnerCap) : Tx Coin :=
  assert_owner owner_cap ;;
  amount <- read (fun v => value (balance_sui v)) ;;
  vid <- read object_id ;;
  emit (WithdrawnAll vid amount) ;;
  b <- balance_split amount ;;
  from_balance b.

Definition withdraw (owner_cap : OwnerCap) (amount : Z) : Tx Coin :=
  assert_owner owner_cap ;;
  assert_ (0 <? amount) E_ZERO_AMOUNT ;;
  bal <- read (fun v => value (balance_sui v)) ;;
  assert_ (amount <=? bal) E_INSUFFICIENT_BALANCE ;;
  b <- balance_split amount ;;
  from_balance b.

Definition reset_counters (owner_cap : OwnerCap) : Tx unit :=
  assert_owner owner_cap ;;
  update_vault (set_total_spent 0) ;;
  update_vault (set_tx_count 0) ;;
  update_vault (set_last_tx_time 0).

Definition update_policy (owner_cap : OwnerCap) (max_budget_ max_per_tx_ : Z)
    (allowed_actions_ : list Z) (cooldown_ms_ expires_at_ : Z) : Tx unit :=
  assert_owner owner_cap ;;
  update_vault (set_policy {| max_budget := max_budget_;
                              max_per_tx := max_per_tx_;
                              allowed_actions := allowed_actions_;
                              cooldown_ms := cooldown_ms_;
                              expires_at := expires_at_ |}) ;;
  vid <- read object_id ;;
  emit (PolicyUpdated vid max_budget_ max_per_tx_ cooldown_ms_ expires_at_).

Definition create_agent_cap (owner_cap : OwnerCap) (agent_address : address)
    : Tx unit :=
  assert_owner owner_cap ;;
  cap_uid <- object_new ;;
  let cap_id := to_inner cap_uid in
  vid <- read object_id ;;
  let agent_cap := {| agent_cap_uid := cap_uid; agent_cap_vault_id := vid |} in
  caps <- read authorized_caps ;;
  update_vault (set_authorized_caps (push_back caps cap_id)) ;;
  emit (AgentCapCreated vid cap_id agent_address) ;;
  transfer (AgentCapObject agent_cap) agent_address.

Definition revoke_agent_cap (owner_cap : OwnerCap) (cap_id : ID) : Tx unit :=
  assert_owner owner_cap ;;
  caps <- read authorized_caps ;;
  let '(found, idx) := index_of caps cap_id in
  assert_ found E_INVALID_CAP ;;
  caps' <- vector_remove caps idx ;;
  update_vault (set_authorized_caps caps') ;;
  vid <- read object_id ;;
  emit (AgentCapRevoked vid cap_id).

Definition agent_withdraw (cap : AgentCap) (amount action_type : Z)
    (clock : Clock) : Tx Coin :=
  (* 0. non-zero amount *)
  assert_ (0 <? amount) E_ZERO_AMOUNT ;;
  (* 1. the capability belongs to this vault *)
  vid <- read object_id ;;
  assert_ (agent_cap_vault_id cap =? vid) E_INVALID_CAP ;;
  (* 2. the capability is authorized (not revoked) *)
  let cap_id := agent_cap_id cap in
  caps <- read authorized_caps ;;
  let '(authorized, _) := index_of caps cap_id in
  assert_ authorized E_INVALID_CAP ;;
  let now := timestamp_ms clock in
  (* 3. expiry *)
  expiry <- read (fun v => expires_at (policy v)) ;;
  assert_ (now <? expiry) E_EXPIRED ;;
  (* 4. cooldown (skipped for the first transaction) *)
  count <- read tx_count ;;
  (if 0 <? count then
     last <- read last_tx_time ;;
     elapsed <- sub_u64 now last ;;
     cooldown <- read (fun v => cooldown_ms (policy v)) ;;
     assert_ (cooldown <=? elapsed) E_COOLDOWN
   else ret tt) ;;
  (* 5. per-transaction limit *)
  per_tx <- read (fun v => max_per_tx (policy v)) ;;
  assert_ (amount <=? per_tx) E_PER_TX_EXCEEDED ;;
  (* 6. total budget, by subtraction *)
  budget <- read (fun v => max_budget (policy v)) ;;
  spent <- read total_spent ;;
  remaining <- sub_u64 budget spent ;;
  assert_ (amount <=? remaining) E_BUDGET_EXCEEDED ;;
  (* 7. action whitelist *)
  actions <- read (fun v => allowed_actions (policy v)) ;;
  assert_ (contains actions action_type) E_NOT_WHITELISTED ;;
  (* 8. sufficient balance *)
  bal <- read (fun v => value (balance_sui v)) ;;
  assert_ (amount <=? bal) E_INSUFFICIENT_BALANCE ;;
  (* 9. update the counters *)
  spent <- read total_spent ;;
  spent' <- add_u64 spent amount ;;
  update_vault (set_total_spent spent') ;;
  update_vault (set_last_tx_time now) ;;
  count <- read tx_count ;;
  count' <- add_u64 count 1 ;;
  update_vault (set_tx_count count') ;;
  vid <- read object_id ;;
  spent_now <- read total_spent ;;
  budget <- read (fun v => max_budget (policy v)) ;;
  remaining_budget <- sub_u64 budget spent_now ;;
  count_now <- read tx_count ;;
  emit (AgentWithdrawal vid (agent_cap_id cap) amount action_type
          spent_now remaining_budget count_now now) ;;
  (* 10. extract and return the funds *)
  b <- balance_split amount ;;
  from_balance b.

(** View functions. *)
Definition get_balance (v : Vault) : Z := value (balance_sui v).
Definition get_total_spent (v : Vault) : Z := total_spent v.
Definition get_tx_count (v : Vault) : Z := tx_count v.
Definition get_owner (v : Vault) : address := owner v.
Definition get_policy_max_budget (v : Vault) : Z := max_budget (policy v).

(** ** The off-chain pre-check, [lib/agent/policy-checker.ts] *)

Module PolicyChecker.

(** [Policy] and [VaultData] of [lib/vault/types.ts]. *)
Record Policy := {
  maxBudget : Z;
  maxPerTx : Z;
  allowedActions : list Z;
  cooldownMs : Z;
  expiresAt : Z
}.

Record VaultData := {
  id : ID;
  owner : address;
  balance : Z;
  policy : Policy;
  authorizedCaps : list ID;
  totalSpent : Z;
  lastTxTime : Z;
  txCount : Z
}.

Record PolicyCheckResult := { allowed : bool; reason : string }.

(** Template-literal rendering of an integer. *)
Definition show (z : Z) : string := NilZero.string_of_int (Z.to_int z).

(** [Math.ceil(remaining / 1000)] on an integer; the division and the
    ceiling of doubles give this for a safe integer (beyond 2^53 they
    round). *)
Definition ceil_div_1000 (remaining : Z) : Z := - ((- remaining) / 1000).

(** [Array.prototype.includes]. *)
Fixpoint includes (l : list Z) (x : Z) : bool :=
  match l with
  | [] => false
  | y :: rest => if y =? x then true else includes rest x
  end.

Definition deny (r : string) : PolicyCheckResult :=
  {| allowed := false; reason := r |}.

(** [checkPolicy]; [amount] is [None] when the parameter is omitted. *)
Definition checkPolicy (vault : VaultData) (actionType nowMs : Z)
    (amount : option Z) : PolicyCheckResult :=
  let policy := policy vault in
  (* 1. Expiry *)
  if expiresAt policy <=? nowMs then deny "Policy has expired"
  else
  (* 2. Cooldown (skipped for the first transaction) *)
  match (if 0 <? txCount vault then
           let elapsed := nowMs - lastTxTime vault in
           if elapsed <? cooldownMs policy then
             let remaining := cooldownMs policy - elapsed in
             let remainingSec := ceil_div_1000 remaining in
             Some (deny ("Cooldown active: " ++ show remainingSec
                         ++ "s remaining"))
           else None
         else None) with
  | Some early => early
  | None =>
  (* 3. Action whitelist *)
  if negb (includes (allowedActions policy) actionType) then
    deny ("Action type " ++ show actionType ++ " is not whitelisted")
  else
  (* 4. Amount-related checks *)
  match amount with
  | Some amount =>
      if amount <=? 0 then deny "Amount must be greater than zero"
      else if maxPerTx policy <? amount then
        deny ("Amount " ++ show amount ++ " exceeds per-tx limit "
              ++ show (maxPerTx policy))
      else
      let remainingBudget := maxBudget policy - totalSpent vault in
      if remainingBudget <? amount then
        deny ("Amount " ++ show amount ++ " exceeds remaining budget "
              ++ show remainingBudget)
      else if balance vault <? amount then
        deny ("Insufficient vault balance: " ++ show (balance vault)
              ++ " < " ++ show amount)
      else {| allowed := true; reason := "Policy check passed" |}
  | None => {| allowed := true; reason := "Policy check passed" |}
  end
  end.

End PolicyChecker.

(** The snapshot of a live vault: every field with the value it has on
    the ledger.  [getVault] materialises exactly this as long as the
    fields that it reads through [Number] are safe integers
    ([snapshot_exact] below); beyond 2^53 - 1 [Number] rounds, and what
    [getVault] returns is no longer equal to the live state. *)
Definition snapshot (v : Vault) : PolicyChecker.VaultData :=
  {| PolicyChecker.id := object_id v;
     PolicyChecker.owner := owner v;
     PolicyChecker.balance := value (balance_sui v);
     PolicyChecker.policy :=
       {| PolicyChecker.maxBudget := max_budget (policy v);
          PolicyChecker.maxPerTx := max_per_tx (policy v);
          PolicyChecker.allowedActions := allowed_actions (policy v);
          PolicyChecker.cooldownMs := cooldown_ms (policy v);
          PolicyChecker.expiresAt := expires_at (policy v) |};
     PolicyChecker.authorizedCaps := authorized_caps v;
     PolicyChecker.totalSpent := total_spent v;
     PolicyChecker.lastTxTime := last_tx_time v;
     PolicyChecker.txCount := tx_count v |}.

(** ** The failure taxonomy and the ordered checks, as the specification
    words them *)

Inductive FailureKind :=
| NotOwner
| ZeroAmount
| InvalidCapability
| Expired
| CooldownActive
| PerOperationLimitExceeded
| BudgetExceeded
| ActionNotWhitelisted
| InsufficientBalance.

Definition failure_code (k : FailureKind) : Z :=
  match k with
  | NotOwner => E_NOT_OWNER
  | ZeroAmount => E_ZERO_AMOUNT
  | InvalidCapability => E_INVALID_CAP
  | Expired => E_EXPIRED
  | CooldownActive => E_COOLDOWN
  | PerOperationLimitExceeded => E_PER_TX_EXCEEDED
  | BudgetExceeded => E_BUDGET_EXCEEDED
  | ActionNotWhitelisted => E_NOT_WHITELISTED
  | InsufficientBalance => E_INSUFFICIENT_BALANCE
  end.

(** A kind reported by [agent_vault] itself, as a failure of the monad. *)
Definition rejected (k : FailureKind) : Failure :=
  MoveAbort agent_vault_module (failure_code k).

Definition member (x : Z) (l : list Z) : bool := existsb (Z.eqb x) l.

(** The nine checks of the enforcement algorithm in their stated order,
    over unbounded integers; [true] means that the check passes. *)
Definition ordered_checks (v : Vault) (cap : AgentCap)
    (amount action_type now : Z) : list (bool * FailureKind) :=
  [ (0 <? amount, ZeroAmount);
    (agent_cap_vault_id cap =? object_id v, InvalidCapability);
    (member (agent_cap_id cap) (authorized_caps v), InvalidCapability);
    (now <? expires_at (policy v), Expired);
    (implb (0 <? tx_count v)
           (cooldown_ms (policy v) <=? now - last_tx_time v), CooldownActive);
    (amount <=? max_per_tx (policy v), PerOperationLimitExceeded);
    (amount <=? max_budget (policy v) - total_spent v, BudgetExceeded);
    (member action_type (allowed_actions (policy v)), ActionNotWhitelisted);
    (amount <=? value (balance_sui v), InsufficientBalance) ].

Fixpoint first_violated (checks : list (bool * FailureKind))
    : option FailureKind :=
  match checks with
  | [] => None
  | (passes, k) :: rest => if passes then first_violated rest else Some k
  end.

(** The checks of the pre-check in the order of its own, on a snapshot. *)
Definition mirror_checks (vd : PolicyChecker.VaultData)
    (actionType nowMs : Z) (amount : option Z) : list (bool * FailureKind) :=
  let p := PolicyChecker.policy vd in
  [ (nowMs <? PolicyChecker.expiresAt p, Expired);
    (implb (0 <? PolicyChecker.txCount vd)
           (PolicyChecker.cooldownMs p <=? nowMs - PolicyChecker.lastTxTime vd),
     CooldownActive);
    (member actionType (PolicyChecker.allowedActions p), ActionNotWhitelisted) ]
  ++ match amount with
     | None => []
     | Some a =>
         [ (0 <? a, ZeroAmount);
           (a <=? PolicyChecker.maxPerTx p, PerOperationLimitExceeded);
           (a <=? PolicyChecker.maxBudget p - PolicyChecker.totalSpent vd,
            BudgetExceeded);
           (a <=? PolicyChecker.balance vd, InsufficientBalance) ]
     end.

(** The dimension that a reason of the pre-check names, with the figures
    it quotes. *)
Definition mirror_reason (vd : PolicyChecker.VaultData)
    (actionType nowMs amount : Z) (k : FailureKind) : string :=
  let p := PolicyChecker.policy vd in
  let show := PolicyChecker.show in
  match k with
  | Expired => "Policy has expired"
  | CooldownActive =>
      "Cooldown active: "
      ++ show (PolicyChecker.ceil_div_1000
                 (PolicyChecker.cooldownMs p
                  - (nowMs - PolicyChecker.lastTxTime vd)))
      ++ "s remaining"
  | ActionNotWhitelisted =>
      "Action type " ++ show actionType ++ " is not whitelisted"
  | ZeroAmount => "Amount must be greater than zero"
  | PerOperationLimitExceeded =>
      "Amount " ++ show amount ++ " exceeds per-tx limit "
      ++ show (PolicyChecker.maxPerTx p)
  | BudgetExceeded =>
      "Amount " ++ show amount ++ " exceeds remaining budget "
      ++ show (PolicyChecker.maxBudget p - PolicyChecker.totalSpent vd)
  | InsufficientBalance =>
      "Insufficient vault balance: " ++ show (PolicyChecker.balance vd)
      ++ " < " ++ show amount
  | NotOwner | InvalidCapability => ""
  end.

(** ** The operation surface as a transition system *)

Inductive Call :=
| Deposit (owner_cap : OwnerCap) (coin : Coin)
| WithdrawAll (owner_cap : OwnerCap)
| Withdraw (owner_cap : OwnerCap) (amount : Z)
| ResetCounters (owner_cap : OwnerCap)
| UpdatePolicy (owner_cap : OwnerCap) (max_budget_ max_per_tx_ : Z)
    (allowed_actions_ : list Z) (cooldown_ms_ expires_at_ : Z)
| CreateAgentCap (owner_cap : OwnerCap) (agent_address : address)
| RevokeAgentCap (owner_cap : OwnerCap) (cap_id : ID)
| AgentWithdraw (cap : AgentCap) (amount action_type : Z).

(** A call whose returned coin, if any, is handed to the caller. *)
Definition run (c : Call) (clock : Clock) : Tx unit :=
  match c with
  | Deposit oc coin => deposit oc coin
  | WithdrawAll oc => _ <- withdraw_all oc ;; ret tt
  | Withdraw oc amount => _ <- withdraw oc amount ;; ret tt
  | ResetCounters oc => reset_counters oc
  | UpdatePolicy oc mb mp aa cd ex => update_policy oc mb mp aa cd ex
  | CreateAgentCap oc a => create_agent_cap oc a
  | RevokeAgentCap oc cap_id => revoke_agent_cap oc cap_id
  | AgentWithdraw cap amount action => _ <- agent_withdraw cap amount action clock ;; ret tt
  end.

(** The arguments of a call are values of their Move types. *)
Definition call_typed (c : Call) : Prop :=
  match c with
  | Deposit _ coin => in_u64 (coin_value coin)
  | Withdraw _ amount => in_u64 amount
  | UpdatePolicy _ mb mp aa cd ex =>
      in_u64 mb /\ in_u64 mp /\ Forall in_u8 aa /\ in_u64 cd /\ in_u64 ex
  | AgentWithdraw _ amount action => in_u64 amount /\ in_u8 action
  | _ => True
  end.

(** The ledger around one vault: the vault, the time of the last
    transaction, the next unused identifier and the event stream. *)
Record Ledger := {
  l_vault : Vault;
  l_time : Z;
  l_fresh : ID;
  l_events : list Event
}.

Definition ledger_of (s : Store) (clock : Clock) : Ledger :=
  {| l_vault := s_vault s; l_time := timestamp_ms clock;
     l_fresh := fresh (s_ctx s); l_events := s_events s |}.

(** The store in which a transaction on the ledger starts. *)
Definition store_of (l : Ledger) (ctx : TxContext) : Store :=
  {| s_vault := l_vault l; s_ctx := ctx; s_events := l_events l;
     s_transfers := [] |}.

(** One successful transaction on the ledger: time never runs backwards
    and identifiers are never reused; a failed transaction leaves no
    trace. *)
Inductive step : Ledger -> Ledger -> Prop :=
| step_call l c clock ctx s' :
    call_typed c ->
    l_time l <= timestamp_ms clock -> in_u64 (timestamp_ms clock) ->
    l_fresh l <= fresh ctx ->
    run c clock (store_of l ctx) = Done tt s' ->
    step l (ledger_of s' clock).

Inductive steps : Ledger -> Ledger -> Prop :=
| steps_refl l : steps l l
| steps_more l l' l'' : steps l l' -> step l' l'' -> steps l l''.

(** Ledgers that the public functions can produce. *)
Inductive reachable : Ledger -> Prop :=
| reachable_create coin mb mp aa cd ex clock ctx :
    in_u64 (coin_value coin) -> in_u64 mb -> in_u64 mp -> Forall in_u8 aa ->
    in_u64 cd -> in_u64 ex -> in_u64 (timestamp_ms clock) ->
    reachable (ledger_of (create_vault coin mb mp aa cd ex clock ctx) clock)
| reachable_step l l' : reachable l -> step l l' -> reachable l'.

(** Every field of the vault holds a value of its Move type. *)
Record vault_typed (v : Vault) : Prop := {
  typed_balance : in_u64 (value (balance_sui v));
  typed_max_budget : in_u64 (max_budget (policy v));
  typed_max_per_tx : in_u64 (max_per_tx (policy v));
  typed_allowed_actions : Forall in_u8 (allowed_actions (policy v));
  typed_cooldown_ms : in_u64 (cooldown_ms (policy v));
  typed_expires_at : in_u64 (expires_at (policy v));
  typed_total_spent : in_u64 (total_spent v);
  typed_last_tx_time : in_u64 (last_tx_time v);
  typed_tx_count : in_u64 (tx_count v)
}.

(** What every reachable ledger satisfies. *)
Record ledger_inv (l : Ledger) : Prop := {
  inv_typed : vault_typed (l_vault l);
  inv_count : tx_count (l_vault l) <= total_spent (l_vault l);
  inv_time : last_tx_time (l_vault l) <= l_time l;
  inv_caps_nodup : NoDup (authorized_caps (l_vault l));
  inv_caps_old : forall c, In c (authorized_caps (l_vault l)) -> c < l_fresh l
}.

(** The result of a computation stripped of its store. *)
Definition verdict {A} (o : Outcome A) : option Failure :=
  match o with
  | Done _ _ => None
  | Failed f _ => Some f
  end.

Definition succeeds {A} (o : Outcome A) : Prop := exists a s, o = Done a s.

(** ** The committed withdrawal *)

(** The vault after a delegated withdrawal of [amount] at time [now]. *)
Definition withdrawn (v : Vault) (amount now : Z) : Vault :=
  {| vault_uid := vault_uid v; owner := owner v;
     balance_sui := {| value := value (balance_sui v) - amount |};
     policy := policy v; authorized_caps := authorized_caps v;
     total_spent := total_spent v + amount;
     last_tx_time := now;
     tx_count := tx_count v + 1 |}.

Definition withdrawal_event (v : Vault) (cap : AgentCap)
    (amount action_type now : Z) : Event :=
  AgentWithdrawal (object_id v) (agent_cap_id cap) amount action_type
    (total_spent v + amount)
    (max_budget (policy v) - (total_spent v + amount))
    (tx_count v + 1) now.

(** What [agent_withdraw] reports when [k] is the earliest violated
    check: the kind itself, unless the subtraction that the check needs
    underflows. *)
Definition reported (v : Vault) (now : Z) (k : FailureKind) : Failure :=
  match k with
  | CooldownActive =>
      if last_tx_time v <=? now then rejected k else ArithmeticError
  | BudgetExceeded =>
      if total_spent v <=? max_budget (policy v) then rejected k
      else ArithmeticError
  | _ => rejected k
  end.

Definition FailureKind_eqb (a b : FailureKind) : bool :=
  failure_code a =? failure_code b.

(** Every check passes, the checks of kind [k] set aside. *)
Definition passes_all_but (k : FailureKind)
    (checks : list (bool * FailureKind)) : bool :=
  forallb (fun c => fst c || FailureKind_eqb (snd c) k) checks.

(** The vault with another cooldown and another time of last use. *)
Definition with_cooldown (cd last : Z) (v : Vault) : Vault :=
  set_last_tx_time last
    (set_policy {| max_budget := max_budget (policy v);
                   max_per_tx := max_per_tx (policy v);
                   allowed_actions := allowed_actions (policy v);
                   cooldown_ms := cd;
                   expires_at := expires_at (policy v) |} v).

Definition with_vault (v : Vault) (s : Store) : Store :=
  {| s_vault := v; s_ctx := s_ctx s; s_events := s_events s;
     s_transfers := s_transfers s |}.

(** ** A test scenario, after [agent_vault_tests.move] *)

Definition OWNER : address := 10.
Definition AGENT : address := 11.
Definition ONE_SUI : Z := 1000000000.
Definition TEN_SUI : Z := 10000000000.
Definition HALF_SUI : Z := 500000000.
Definition DEFAULT_MAX_BUDGET : Z := 5000000000.
Definition DEFAULT_MAX_PER_TX : Z := 1000000000.
Definition DEFAULT_COOLDOWN_MS : Z := 60000.
Definition DEFAULT_EXPIRES_AT : Z := 999999999999.
Definition ACTION_SWAP : Z := 0.
Definition ACTION_LIMIT_ORDER : Z := 1.

Definition at_time (t : Z) : Clock := {| timestamp_ms := t |}.

Definition ctx_of (who : address) (l : Ledger) : TxContext :=
  {| sender := who; fresh := l_fresh l |}.

(** The ledger after a transaction; a failed one leaves it as it was. *)
Definition after (c : Call) (who : address) (t : Z) (l : Ledger) : Ledger :=
  match run c (at_time t) (store_of l (ctx_of who l)) with
  | Done _ s' => ledger_of s' (at_time t)
  | Failed _ _ => l
  end.

Definition minted (amount : Z) : Coin :=
  {| coin_id := {| to_inner := 1 |}; coin_balance := {| value := amount |} |}.

(** [setup_vault]: the vault is object 100, the owner capability 101. *)
Definition setup_vault : Ledger :=
  ledger_of (create_vault (minted TEN_SUI) DEFAULT_MAX_BUDGET DEFAULT_MAX_PER_TX
               [ACTION_SWAP] DEFAULT_COOLDOWN_MS DEFAULT_EXPIRES_AT
               (at_time 0) {| sender := OWNER; fresh := 100 |})
            (at_time 0).

Definition the_owner_cap : OwnerCap :=
  {| owner_cap_uid := {| to_inner := 101 |}; owner_cap_vault_id := 100 |}.

(** [setup_vault_with_agent]: the agent capability is object 102. *)
Definition setup_vault_with_agent : Ledger :=
  after (CreateAgentCap the_owner_cap AGENT) OWNER 0 setup_vault.

Definition the_agent_cap : AgentCap :=
  {| agent_cap_uid := {| to_inner := 102 |}; agent_cap_vault_id := 100 |}.

(** One withdrawal of 1 SUI, then the owner lowers the budget to 0.5 SUI. *)
Definition after_one_withdrawal : Ledger :=
  after (AgentWithdraw the_agent_cap ONE_SUI ACTION_SWAP) AGENT 1000
        setup_vault_with_agent.

Definition budget_lowered : Ledger :=
  after (UpdatePolicy the_owner_cap HALF_SUI DEFAULT_MAX_PER_TX [ACTION_SWAP]
           DEFAULT_COOLDOWN_MS DEFAULT_EXPIRES_AT) OWNER 2000
        after_one_withdrawal.

(** The agent capability revoked right after it was created. *)
Definition cap_revoked : Ledger :=
  after (RevokeAgentCap the_owner_cap 102) OWNER 10 setup_vault_with_agent.

(** Five withdrawals of 1 SUI, 61 seconds apart. *)
Definition withdraw_one (t : Z) (l : Ledger) : Ledger :=
  after (AgentWithdraw the_agent_cap ONE_SUI ACTION_SWAP) AGENT t l.

Definition five_withdrawals : Ledger :=
  withdraw_one 245000 (withdraw_one 184000 (withdraw_one 123000
    (withdraw_one 62000 after_one_withdrawal))).

Definition as_agent (l : Ledger) : Store := store_of l (ctx_of AGENT l).

(** ** Vocabulary for the operation surface *)

(** The fields of the vault that [parseVaultData] reads through [Number]
    are safe integers, so that [snapshot] is what [getVault] returns. *)
Definition snapshot_exact (v : Vault) : Prop :=
  safe_natural (cooldown_ms (policy v)) /\
  safe_natural (expires_at (policy v)) /\
  safe_natural (last_tx_time v) /\
  safe_natural (tx_count v) /\
  Forall safe_natural (allowed_actions (policy v)).

(** The owner capability that an owner-only call presents. *)
Definition owner_cap_of (c : Call) : option OwnerCap :=
  match c with
  | Deposit oc _ | WithdrawAll oc | Withdraw oc _ | ResetCounters oc
  | UpdatePolicy oc _ _ _ _ _ | CreateAgentCap oc _ | RevokeAgentCap oc _ =>
      Some oc
  | AgentWithdraw _ _ _ => None
  end.

(** The funds that a call moves into the vault (negative: out of it). *)
Definition net_flow (c : Call) (v : Vault) : Z :=
  match c with
  | Deposit _ coin => coin_value coin
  | WithdrawAll _ => - value (balance_sui v)
  | Withdraw _ amount => - amount
  | AgentWithdraw _ amount _ => - amount
  | _ => 0
  end.

Definition event_vault_id (e : Event) : ID :=
  match e with
  | VaultCreated vid _ _ _ | AgentWithdrawal vid _ _ _ _ _ _ _
  | PolicyUpdated vid _ _ _ _ | AgentCapCreated vid _ _
  | AgentCapRevoked vid _ | Deposited vid _ _ | WithdrawnAll vid _ => vid
  end.

(** What an indexer may rely on in an event of the vault [vid]. *)
Definition event_sound (vid : ID) (e : Event) : Prop :=
  event_vault_id e = vid /\
  match e with
  | AgentWithdrawal _ _ amount action spent remaining count _ =>
      0 < amount <= spent /\ spent <= MAX_U64 /\
      0 <= remaining <= MAX_U64 /\ 1 <= count <= spent /\ in_u8 action
  | Deposited _ amount new_balance => 0 <= amount <= new_balance
  | WithdrawnAll _ amount => 0 <= amount
  | _ => True
  end.

(** ** Reading a vault from the ledger, [lib/vault/service.ts] *)

Module Service.

(** The values that the RPC client returns.  A number is an integral
    one.  An object is the list of its properties, the first binding of a
    name being the one that counts; the property names that the service
    reads are no inherited ones, so an array has none of them. *)
#[local] Unset Elimination Schemes.
Inductive JSValue :=
| JUndefined
| JNull
| JBoolean (b : bool)
| JNumber (n : Z)
| JString (s : string)
| JArray (items : list JSValue)
| JObject (props : list (string * JSValue)).
#[local] Set Elimination Schemes.

Inductive JSError :=
| Error (message : string)
| TypeError
| SyntaxError (input : JSValue).

Inductive Result (A : Type) :=
| Returns (a : A)
| Throws (e : JSError).
Arguments Returns {A} a.
Arguments Throws {A} e.

Definition and_then {A B} (r : Result A) (k : A -> Result B) : Result B :=
  match r with
  | Returns a => k a
  | Throws e => Throws e
  end.

(** [val !== null && typeof val === "object"]. *)
Definition is_object (val : JSValue) : bool :=
  match val with
  | JObject _ | JArray _ => true
  | _ => false
  end.

Fixpoint lookup (name : string) (props : list (string * JSValue))
    : option JSValue :=
  match props with
  | [] => None
  | (k, v) :: rest => if String.eqb k name then Some v else lookup name rest
  end.

(** [name in val], for an object. *)
Definition has_property (val : JSValue) (name : string) : bool :=
  match val with
  | JObject props =>
      match lookup name props with Some _ => true | None => false end
  | _ => false
  end.

(** [val.name] on a value that is neither [null] nor [undefined]. *)
Definition get (val : JSValue) (name : string) : JSValue :=
  match val with
  | JObject props =>
      match lookup name props with Some v => v | None => JUndefined end
  | _ => JUndefined
  end.

Definition nullish (val : JSValue) : bool :=
  match val with
  | JUndefined | JNull => true
  | _ => false
  end.

(** [a ?? b]. *)
Definition coalesce (a b : JSValue) : JSValue := if nullish a then b else a.

(** [!val]. *)
Definition falsy (val : JSValue) : bool :=
  match val with
  | JUndefined | JNull | JBoolean false => true
  | JNumber n => n =? 0
  | JString s => String.eqb s ""
  | _ => false
  end.

Definition unwrapFields (val : JSValue) : JSValue :=
  let otherwise :=
    if is_object val then val
    else (* a primitive: wrapped so that callers can read [.value] *)
      JObject [("value"%string, val)] in
  if is_object val && has_property val "fields" then
    let inner := get val "fields" in
    if is_object inner then inner else otherwise
  else otherwise.

Definition extractFields (content : JSValue) : Result JSValue :=
  if nullish content then Throws TypeError
  else if negb (match get content "dataType" with
                | JString t => String.eqb t "moveObject"
                | _ => false
                end)
  then Throws (Error "Expected moveObject content")
  else if falsy (get content "fields")
  then Throws (Error "Missing fields in moveObject")
  else Returns (unwrapFields (get content "fields")).

(** The conversions [BigInt(String(x))], which throws a [SyntaxError] on
    what is no integer literal, and [Number(x)] are the language's own;
    the parsers take them, and the types of their results, as they
    come. *)
Section Parsers.

Variables bigint number : Type.
Variable BigInt_String : JSValue -> option bigint.
Variable Number_ : JSValue -> number.

Record Policy := {
  maxBudget : bigint;
  maxPerTx : bigint;
  allowedActions : JSValue;
  cooldownMs : number;
  expiresAt : number
}.

Record VaultData := {
  id : string;
  owner : JSValue;
  balance : bigint;
  policy : Policy;
  authorizedCaps : JSValue;
  totalSpent : bigint;
  lastTxTime : number;
  txCount : number
}.

Definition to_bigint (x : JSValue) : Result bigint :=
  match BigInt_String x with
  | Some b => Returns b
  | None => Throws (SyntaxError x)
  end.

Definition parsePolicy (raw : JSValue) : Result Policy :=
  let f := unwrapFields raw in
  and_then (to_bigint (coalesce (get f "max_budget") (JNumber 0)))
    (fun max_budget =>
  and_then (to_bigint (coalesce (get f "max_per_tx") (JNumber 0)))
    (fun max_per_tx =>
  Returns
    {| maxBudget := max_budget;
       maxPerTx := max_per_tx;
       allowedActions := coalesce (get f "allowed_actions") (JArray []);
       cooldownMs := Number_ (coalesce (get f "cooldown_ms") (JNumber 0));
       expiresAt := Number_ (coalesce (get f "expires_at") (JNumber 0)) |})).

Definition parseVaultData (objectId : string) (fields : JSValue)
    : Result VaultData :=
  let balanceInner := unwrapFields (get fields "balance_sui") in
  and_then (to_bigint (coalesce (get balanceInner "value") (JNumber 0)))
    (fun balance_ =>
  and_then (parsePolicy (get fields "policy"))
    (fun policy_ =>
  and_then (to_bigint (coalesce (get fields "total_spent") (JNumber 0)))
    (fun total_spent_ =>
  Returns
    {| id := objectId;
       owner := get fields "owner";
       balance := balance_;
       policy := policy_;
       authorizedCaps := coalesce (get fields "authorized_caps") (JArray []);
       totalSpent := total_spent_;
       lastTxTime := Number_ (coalesce (get fields "last_tx_time") (JNumber 0));
       txCount := Number_ (coalesce (get fields "tx_count") (JNumber 0)) |}))).

(** [response.data?.content]. *)
Definition response_content (response : JSValue) : JSValue :=
  let data := get response "data" in
  if nullish data then JUndefined else get data "content".

(** [getVault], given the response of [client.getObject]. *)
Definition getVault (vaultId : string) (response : JSValue)
    : Result VaultData :=
  if nullish response then Throws TypeError
  else if falsy (response_content response)
  then Throws (Error ("Vault not found: " ++ vaultId))
  else and_then (extractFields (response_content response))
         (parseVaultData vaultId).

End Parsers.

End Service.

(** The two conversions on what the fixtures of [service.test.ts] hold:
    decimal strings and integral numbers.  ([decimal] is used on such
    input only; elsewhere [Number] yields [NaN], which is no [Z].) *)
Definition decimal_string (x : Service.JSValue) : option Z :=
  match x with
  | Service.JNumber n => Some n
  | Service.JString s => option_map Z.of_int (NilZero.int_of_string s)
  | _ => None
  end.

Definition decimal (x : Service.JSValue) : Z :=
  match decimal_string x with Some z => z | None => 0 end.

Definition fixture_policy : list (string * Service.JSValue) :=
  [ ("max_budget"%string, Service.JString "10000000000");
    ("max_per_tx"%string, Service.JString "1000000000");
    ("allowed_actions"%string, Service.JArray [Service.JNumber 0]);
    ("cooldown_ms"%string, Service.JString "60000");
    ("expires_at"%string, Service.JString "1700000000000") ].

Definition fixture_rest : list (string * Service.JSValue) :=
  [ ("owner"%string, Service.JString "0xowner_address");
    ("authorized_caps"%string,
     Service.JArray [Service.JString "0xcap1"; Service.JString "0xcap2"]);
    ("total_spent"%string, Service.JString "2000000000");
    ("last_tx_time"%string, Service.JString "1699999000000");
    ("tx_count"%string, Service.JString "3") ].

Definition VAULT_FIELDS_FLAT : Service.JSValue :=
  Service.JObject
    (("balance_sui"%string,
      Service.JObject [("value"%string, Service.JString "5000000000")])
     :: ("policy"%string, Service.JObject fixture_policy) :: fixture_rest).

Definition VAULT_FIELDS_NESTED : Service.JSValue :=
  Service.JObject
    (("balance_sui"%string,
      Service.JObject
        [("fields"%string,
          Service.JObject [("value"%string, Service.JString "5000000000")])])
     :: ("policy"%string,
         Service.JObject [("fields"%string, Service.JObject fixture_policy)])
     :: fixture_rest).

Definition response_with (fields : Service.JSValue) : Service.JSValue :=
  Service.JObject
    [("data"%string,
      Service.JObject
        [("content"%string,
          Service.JObject [("dataType"%string, Service.JString "moveObject");
                           ("fields"%string, fields)])])].

(** * Properties *)

(** ** Vectors *)

Lemma member_In x l : member x l = true <-> In x l.
Proof.
  unfold member. rewrite existsb_exists. split.
  - intros [y [Hy Heq]]. apply Z.eqb_eq in Heq. now subst.
  - intros H. exists x. split; [assumption | apply Z.eqb_refl].
Qed.

Lemma index_of_member l e : fst (index_of l e) = member e l.
Proof.
  induction l as [|x l IH]; cbn; [reflexivity|].
  rewrite (Z.eqb_sym e x).
  destruct (x =? e); cbn; [reflexivity|].
  unfold member in IH. rewrite <- IH.
  destruct (index_of l e) as [[] i]; reflexivity.
Qed.

Lemma index_of_in_range l e :
  fst (index_of l e) = true -> (snd (index_of l e) <? List.length l)%nat = true.
Proof.
  induction l as [|x l IH]; cbn; [discriminate|].
  destruct (x =? e); [reflexivity|].
  destruct (index_of l e) as [[] i]; cbn in *; [|discriminate].
  intros _. exact (IH eq_refl).
Qed.

Lemma contains_member l e : contains l e = member e l.
Proof.
  induction l as [|x l IH]; cbn; [reflexivity|].
  rewrite (Z.eqb_sym e x). destruct (x =? e); cbn; auto.
Qed.

Lemma includes_member l e : PolicyChecker.includes l e = member e l.
Proof.
  induction l as [|x l IH]; cbn; [reflexivity|].
  rewrite (Z.eqb_sym e x). destruct (x =? e); cbn; auto.
Qed.

Lemma remove_incl l i x : In x (remove l i) -> In x l.
Proof.
  revert i. induction l as [|y l IH]; intros [|i]; cbn; auto.
  intros [H | H]; [left | right]; eauto.
Qed.

Lemma remove_NoDup l i : NoDup l -> NoDup (remove l i).
Proof.
  revert i. induction l as [|y l IH]; intros [|i] H; cbn; auto.
  - now inversion H.
  - inversion H; subst. constructor; auto.
    intros Hin. apply remove_incl in Hin. contradiction.
Qed.

(** Removing the first occurrence of [e] from a duplicate-free vector
    removes [e] and nothing else. *)
Lemma remove_index_of l e x :
  NoDup l -> fst (index_of l e) = true ->
  (In x (remove l (snd (index_of l e))) <-> In x l /\ x <> e).
Proof.
  induction l as [|y l IH]; cbn; [discriminate|].
  intros Hnd Hfound. inversion Hnd as [|? ? Hy Hl]; subst.
  destruct (y =? e) eqn:Hye.
  - apply Z.eqb_eq in Hye. subst y. cbn. split.
    + intros H. split; [now right|]. intros ->. contradiction.
    + intros [[H | H] Hne]; [congruence | assumption].
  - apply Z.eqb_neq in Hye.
    destruct (index_of l e) as [[] i] eqn:Hidx; cbn in *; [|discriminate].
    specialize (IH Hl eq_refl). split.
    + intros [H | H]; [subst; auto|]. apply IH in H. tauto.
    + intros [[H | H] Hne]; [now left | right]. apply IH. tauto.
Qed.

(** ** The monad, unfolded *)

Ltac tx_unfold :=
  unfold balance_split, balance_join, from_balance, assert_owner;
  unfold bind, read, assert_, sub_u64, add_u64, update_vault, emit, transfer,
    object_new;
  unfold ret, abort; cbn beta.

Ltac tx_step := cbn [s_vault s_ctx s_events s_transfers fst snd negb andb].

Ltac vault_fields :=
  cbn [set_total_spent set_last_tx_time set_tx_count set_balance_sui
       set_policy set_authorized_caps with_cooldown with_vault withdrawn
       vault_uid owner balance_sui policy authorized_caps total_spent
       last_tx_time tx_count value max_budget max_per_tx allowed_actions
       cooldown_ms expires_at s_vault s_ctx s_events s_transfers fresh sender
       object_id to_inner ledger_of store_of l_vault l_time l_fresh l_events]
    in *.

Ltac bool_to_Z :=
  repeat match goal with
  | H : (_ <=? _) = true |- _ => apply Z.leb_le in H
  | H : (_ <=? _) = false |- _ => apply Z.leb_gt in H
  | H : (_ <? _) = true |- _ => apply Z.ltb_lt in H
  | H : (_ <? _) = false |- _ => apply Z.ltb_ge in H
  | H : (_ =? _) = true |- _ => apply Z.eqb_eq in H
  | H : (_ =? _) = false |- _ => apply Z.eqb_neq in H
  | H : negb _ = true |- _ => apply negb_true_iff in H
  | H : negb _ = false |- _ => apply negb_false_iff in H
  | H : (_ && _) = true |- _ => apply andb_true_iff in H; destruct H
  | H : (_ || _) = false |- _ => apply orb_false_iff in H; destruct H
  end.

(** Each public function as one decision list over the entry store. *)

Lemma deposit_flat oc coin s :
  deposit oc coin s =
  let v := s_vault s in
  if negb (owner_cap_vault_id oc =? object_id v) then Failed (rejected NotOwner) s
  else if negb (value (balance_sui v) + coin_value coin <=? MAX_U64)
       then Failed ArithmeticError s
  else Done tt
    {| s_vault := set_balance_sui
                    {| value := value (balance_sui v) + coin_value coin |} v;
       s_ctx := s_ctx s;
       s_events := s_events s ++
         [Deposited (object_id v) (coin_value coin)
                    (value (balance_sui v) + coin_value coin)];
       s_transfers := s_transfers s |}.
Proof.
  unfold deposit, into_balance, coin_value. tx_unfold. cbn zeta.
  destruct (owner_cap_vault_id oc =? object_id (s_vault s)); tx_step; [|reflexivity].
  destruct (value (balance_sui (s_vault s)) + value (coin_balance coin) <=? MAX_U64);
    tx_step; reflexivity.
Qed.

Lemma withdraw_all_flat oc s :
  withdraw_all oc s =
  let v := s_vault s in
  if negb (owner_cap_vault_id oc =? object_id v) then Failed (rejected NotOwner) s
  else Done {| coin_id := {| to_inner := fresh (s_ctx s) |};
               coin_balance := {| value := value (balance_sui v) |} |}
    {| s_vault := set_balance_sui
                    {| value := value (balance_sui v) - value (balance_sui v) |} v;
       s_ctx := {| sender := sender (s_ctx s); fresh := fresh (s_ctx s) + 1 |};
       s_events := s_events s ++ [WithdrawnAll (object_id v) (value (balance_sui v))];
       s_transfers := s_transfers s |}.
Proof.
  unfold withdraw_all. tx_unfold. cbn zeta.
  destruct (owner_cap_vault_id oc =? object_id (s_vault s)); tx_step; [|reflexivity].
  rewrite Z.leb_refl. reflexivity.
Qed.

Lemma withdraw_flat oc amount s :
  withdraw oc amount s =
  let v := s_vault s in
  if negb (owner_cap_vault_id oc =? object_id v) then Failed (rejected NotOwner) s
  else if negb (0 <? amount) then Failed (rejected ZeroAmount) s
  else if negb (amount <=? value (balance_sui v))
       then Failed (rejected InsufficientBalance) s
  else Done {| coin_id := {| to_inner := fresh (s_ctx s) |};
               coin_balance := {| value := amount |} |}
    {| s_vault := set_balance_sui {| value := value (balance_sui v) - amount |} v;
       s_ctx := {| sender := sender (s_ctx s); fresh := fresh (s_ctx s) + 1 |};
       s_events := s_events s;
       s_transfers := s_transfers s |}.
Proof.
  unfold withdraw. tx_unfold. cbn zeta.
  destruct (owner_cap_vault_id oc =? object_id (s_vault s)); tx_step; [|reflexivity].
  destruct (0 <? amount); tx_step; [|reflexivity].
  destruct (amount <=? value (balance_sui (s_vault s))) eqn:Hbal; tx_step; [|reflexivity].
  rewrite Hbal. reflexivity.
Qed.

Lemma reset_counters_flat oc s :
  reset_counters oc s =
  let v := s_vault s in
  if negb (owner_cap_vault_id oc =? object_id v) then Failed (rejected NotOwner) s
  else Done tt
    {| s_vault := set_last_tx_time 0 (set_tx_count 0 (set_total_spent 0 v));
       s_ctx := s_ctx s; s_events := s_events s;
       s_transfers := s_transfers s |}.
Proof.
  unfold reset_counters. tx_unfold. cbn zeta.
  destruct (owner_cap_vault_id oc =? object_id (s_vault s)); tx_step; reflexivity.
Qed.

Lemma update_policy_flat oc mb mp aa cd ex s :
  update_policy oc mb mp aa cd ex s =
  let v := s_vault s in
  if negb (owner_cap_vault_id oc =? object_id v) then Failed (rejected NotOwner) s
  else Done tt
    {| s_vault := set_policy {| max_budget := mb; max_per_tx := mp;
                                allowed_actions := aa; cooldown_ms := cd;
                                expires_at := ex |} v;
       s_ctx := s_ctx s;
       s_events := s_events s ++ [PolicyUpdated (object_id v) mb mp cd ex];
       s_transfers := s_transfers s |}.
Proof.
  unfold update_policy. tx_unfold. cbn zeta.
  destruct (owner_cap_vault_id oc =? object_id (s_vault s)); tx_step; reflexivity.
Qed.

Lemma create_agent_cap_flat oc a s :
  create_agent_cap oc a s =
  let v := s_vault s in
  let cap_id := fresh (s_ctx s) in
  if negb (owner_cap_vault_id oc =? object_id v) then Failed (rejected NotOwner) s
  else Done tt
    {| s_vault := set_authorized_caps (authorized_caps v ++ [cap_id]) v;
       s_ctx := {| sender := sender (s_ctx s); fresh := fresh (s_ctx s) + 1 |};
       s_events := s_events s ++ [AgentCapCreated (object_id v) cap_id a];
       s_transfers := s_transfers s ++
         [(AgentCapObject {| agent_cap_uid := {| to_inner := cap_id |};
                             agent_cap_vault_id := object_id v |}, a)] |}.
Proof.
  unfold create_agent_cap, push_back. tx_unfold. cbn zeta.
  destruct (owner_cap_vault_id oc =? object_id (s_vault s)); tx_step; reflexivity.
Qed.

Lemma revoke_agent_cap_flat oc cap_id s :
  revoke_agent_cap oc cap_id s =
  let v := s_vault s in
  if negb (owner_cap_vault_id oc =? object_id v) then Failed (rejected NotOwner) s
  else if negb (member cap_id (authorized_caps v))
       then Failed (rejected InvalidCapability) s
  else Done tt
    {| s_vault := set_authorized_caps
                    (remove (authorized_caps v)
                            (snd (index_of (authorized_caps v) cap_id))) v;
       s_ctx := s_ctx s;
       s_events := s_events s ++ [AgentCapRevoked (object_id v) cap_id];
       s_transfers := s_transfers s |}.
Proof.
  unfold revoke_agent_cap, vector_remove. rewrite <- index_of_member.
  tx_unfold. cbn zeta.
  destruct (owner_cap_vault_id oc =? object_id (s_vault s)); tx_step; [|reflexivity].
  pose proof (index_of_in_range (authorized_caps (s_vault s)) cap_id) as Hrange.
  destruct (index_of (authorized_caps (s_vault s)) cap_id) as [[] i]; tx_step;
    [|reflexivity].
  cbn [fst snd] in Hrange. rewrite (Hrange eq_refl). reflexivity.
Qed.

Lemma agent_withdraw_flat cap amount action clock s :
  agent_withdraw cap amount action clock s =
  let v := s_vault s in
  let now := timestamp_ms clock in
  let fail k := Failed (rejected k) s in
  if negb (0 <? amount) then fail ZeroAmount
  else if negb (agent_cap_vault_id cap =? object_id v) then fail InvalidCapability
  else if negb (member (agent_cap_id cap) (authorized_caps v))
       then fail InvalidCapability
  else if negb (now <? expires_at (policy v)) then fail Expired
  else if (0 <? tx_count v) && negb (last_tx_time v <=? now)
       then Failed ArithmeticError s
  else if (0 <? tx_count v)
          && negb (cooldown_ms (policy v) <=? now - last_tx_time v)
       then fail CooldownActive
  else if negb (amount <=? max_per_tx (policy v))
       then fail PerOperationLimitExceeded
  else if negb (total_spent v <=? max_budget (policy v))
       then Failed ArithmeticError s
  else if negb (amount <=? max_budget (policy v) - total_spent v)
       then fail BudgetExceeded
  else if negb (member action (allowed_actions (policy v)))
       then fail ActionNotWhitelisted
  else if negb (amount <=? value (balance_sui v)) then fail InsufficientBalance
  else if negb (total_spent v + amount <=? MAX_U64) then Failed ArithmeticError s
  else if negb (tx_count v + 1 <=? MAX_U64) then
    Failed ArithmeticError
      {| s_vault := set_last_tx_time now
                      (set_total_spent (total_spent v + amount) v);
         s_ctx := s_ctx s; s_events := s_events s;
         s_transfers := s_transfers s |}
  else
    Done {| coin_id := {| to_inner := fresh (s_ctx s) |};
            coin_balance := {| value := amount |} |}
         {| s_vault := withdrawn v amount now;
            s_ctx := {| sender := sender (s_ctx s);
                        fresh := fresh (s_ctx s) + 1 |};
            s_events := s_events s ++
              [withdrawal_event v cap amount action now];
            s_transfers := s_transfers s |}.
Proof.
  unfold agent_withdraw. rewrite <- index_of_member, <- contains_member.
  tx_unfold. cbn zeta. unfold rejected, failure_code.
  destruct (0 <? amount); tx_step; [|reflexivity].
  destruct (agent_cap_vault_id cap =? object_id (s_vault s)); tx_step;
    [|reflexivity].
  destruct (index_of (authorized_caps (s_vault s)) (agent_cap_id cap)) as [[] i];
    tx_step; [|reflexivity].
  destruct (timestamp_ms clock <? expires_at (policy (s_vault s))); tx_step;
    [|reflexivity].
  destruct (0 <? tx_count (s_vault s)); tx_step.
  1: destruct (last_tx_time (s_vault s) <=? timestamp_ms clock); tx_step;
    [|reflexivity].
  1: destruct (cooldown_ms (policy (s_vault s))
               <=? timestamp_ms clock - last_tx_time (s_vault s)); tx_step;
    [|reflexivity].
  all: destruct (amount <=? max_per_tx (policy (s_vault s))); tx_step;
    [|reflexivity].
  all: destruct (total_spent (s_vault s) <=? max_budget (policy (s_vault s)))
    eqn:Hinv; tx_step; [|reflexivity].
  all: destruct (amount <=? max_budget (policy (s_vault s)) - total_spent (s_vault s))
    eqn:Hb; tx_step; [|reflexivity].
  all: destruct (contains (allowed_actions (policy (s_vault s))) action); tx_step;
    [|reflexivity].
  all: destruct (amount <=? value (balance_sui (s_vault s))) eqn:Hbal; tx_step;
    [|reflexivity].
  all: destruct (total_spent (s_vault s) + amount <=? MAX_U64); tx_step;
    [|reflexivity].
  all: cbn [set_total_spent set_last_tx_time set_tx_count tx_count total_spent
            policy balance_sui].
  all: destruct (tx_count (s_vault s) + 1 <=? MAX_U64); tx_step; [|reflexivity].
  all: cbn [set_total_spent set_last_tx_time set_tx_count tx_count total_spent
            policy balance_sui].
  all: destruct (total_spent (s_vault s) + amount <=? max_budget (policy (s_vault s)))
    eqn:Hs; [|bool_to_Z; lia].
  all: tx_step.
  all: cbn [set_total_spent set_last_tx_time set_tx_count tx_count total_spent
            policy balance_sui value].
  all: rewrite Hbal; reflexivity.
Qed.

(** ** Invariants of the ledger *)

Ltac split_ifs H :=
  repeat match type of H with
  | context [if ?b then _ else _] =>
      let E := fresh "E" in destruct b eqn:E; try discriminate H
  end.

(** Case analysis on a successful [run]. *)
Ltac run_cases c H :=
  destruct c; cbn [run] in H; unfold bind in H;
  rewrite ?deposit_flat, ?withdraw_all_flat, ?withdraw_flat,
    ?reset_counters_flat, ?update_policy_flat, ?create_agent_cap_flat,
    ?revoke_agent_cap_flat, ?agent_withdraw_flat in H;
  cbn zeta in H; split_ifs H; unfold ret in H;
  injection H as H; subst; bool_to_Z.

Lemma create_vault_inv coin mb mp aa cd ex clock ctx :
  in_u64 (coin_value coin) -> in_u64 mb -> in_u64 mp -> Forall in_u8 aa ->
  in_u64 cd -> in_u64 ex -> in_u64 (timestamp_ms clock) ->
  ledger_inv (ledger_of (create_vault coin mb mp aa cd ex clock ctx) clock).
Proof.
  intros Hcoin Hmb Hmp Haa Hcd Hex Hnow.
  unfold in_u64, MAX_U64 in *.
  constructor; [constructor|..]; unfold in_u64, MAX_U64; cbn; try lia;
    try assumption; try constructor; try contradiction.
Qed.

Lemma step_inv l l' : ledger_inv l -> step l l' -> ledger_inv l'.
Proof.
  intros [[Hbal Hmb Hmp Haa Hcd Hex Hsp Hlast Hcnt] Hc Htime Hnd Hold] Hstep.
  destruct Hstep as [l c clock ctx s' Hty Hmono Hnow Hfresh Hrun].
  unfold in_u64 in *.
  run_cases c Hrun; cbn [call_typed] in Hty; unfold in_u64 in *;
    (constructor; [constructor|..]); unfold in_u64;
    vault_fields; try assumption; try lia; try tauto.
  all: try (intros x Hx; specialize (Hold _ Hx); lia).
  - (* create_agent_cap: the new identifier is fresh *)
    apply NoDup_app; [assumption | repeat constructor; intros [] | ].
    intros x Hx [<- | []]. specialize (Hold _ Hx). lia.
  - intros x Hx. apply in_app_or in Hx as [Hx | [<- | []]]; [|lia].
    specialize (Hold _ Hx). lia.
  - (* revoke_agent_cap *)
    now apply remove_NoDup.
  - intros x Hx. apply remove_incl in Hx. specialize (Hold _ Hx). lia.
Qed.

Theorem reachable_inv l : reachable l -> ledger_inv l.
Proof.
  induction 1 as [coin mb mp aa cd ex clock ctx | l l' _ IH Hstep].
  - now apply create_vault_inv.
  - exact (step_inv _ _ IH Hstep).
Qed.

(** An identifier that is out of the registry and older than the next
    unused one never comes back. *)
Lemma step_keeps_revoked_out l l' cap_id :
  step l l' -> cap_id < l_fresh l ->
  ~ In cap_id (authorized_caps (l_vault l)) ->
  cap_id < l_fresh l' /\ ~ In cap_id (authorized_caps (l_vault l')).
Proof.
  intros Hstep Hold Hout.
  destruct Hstep as [l c clock ctx s' Hty Hmono Hnow Hfresh Hrun].
  run_cases c Hrun; vault_fields; split; try assumption; try lia.
  - intros Hin. apply in_app_or in Hin as [Hin | [Heq | []]]; [tauto | lia].
  - intros Hin. apply remove_incl in Hin. tauto.
Qed.

Lemma steps_keep_revoked_out l l' cap_id :
  steps l l' -> cap_id < l_fresh l ->
  ~ In cap_id (authorized_caps (l_vault l)) ->
  cap_id < l_fresh l' /\ ~ In cap_id (authorized_caps (l_vault l')).
Proof.
  induction 1 as [l | l l' l'' _ IH Hstep]; intros Hold Hout; [tauto|].
  destruct (IH Hold Hout) as [Hold' Hout'].
  exact (step_keeps_revoked_out _ _ _ Hstep Hold' Hout').
Qed.

Lemma steps_inv l l' : ledger_inv l -> steps l l' -> ledger_inv l'.
Proof.
  intros Hinv. induction 1 as [l | l l' l'' _ IH Hstep]; [assumption|].
  exact (step_inv _ _ (IH Hinv) Hstep).
Qed.

(** ** The test scenario is reachable *)

Lemma after_reachable c who t l :
  reachable l -> call_typed c -> l_time l <= t -> in_u64 t ->
  reachable (after c who t l).
Proof.
  intros Hl Hc Ht Hu. unfold after.
  destruct (run c (at_time t) (store_of l (ctx_of who l))) as [[] s'|f s'] eqn:Hrun;
    [|assumption].
  apply (reachable_step l); [assumption|].
  apply (step_call l c (at_time t) (ctx_of who l)); cbn; auto. lia.
Qed.

Ltac typed :=
  unfold in_u64, in_u8;
  repeat first [apply Forall_nil | apply Forall_cons | split];
  vm_compute; discriminate.

Lemma setup_vault_reachable : reachable setup_vault.
Proof. apply reachable_create; typed. Qed.

Lemma setup_vault_with_agent_reachable : reachable setup_vault_with_agent.
Proof.
  apply after_reachable; [apply setup_vault_reachable | exact I | cbn; lia | typed].
Qed.

Lemma after_one_withdrawal_reachable : reachable after_one_withdrawal.
Proof.
  apply after_reachable;
    [apply setup_vault_with_agent_reachable | split; typed | cbn; lia | typed].
Qed.

Lemma budget_lowered_reachable : reachable budget_lowered.
Proof.
  apply after_reachable;
    [apply after_one_withdrawal_reachable | | cbn; lia | typed].
  cbn. repeat split; typed.
Qed.

Lemma cap_revoked_reachable : reachable cap_revoked.
Proof.
  apply after_reachable;
    [apply setup_vault_with_agent_reachable | exact I | cbn; lia | typed].
Qed.

(** ** The order of the checks *)

(** C1: the code misses the claim.  On the reachable vault whose budget
    the owner lowered below what was already spent, a withdrawal of 1 SUI
    for a non-whitelisted action violates the budget check first, so the
    failure to report is [BudgetExceeded], the code that the assert of
    that check names; yet the subtraction inside the assert underflows
    first and the call aborts with an arithmetic error. *)
Lemma underflow_hides_budget_exceeded :
  let s := store_of budget_lowered (ctx_of AGENT budget_lowered) in
  reachable budget_lowered /\
  first_violated (ordered_checks (s_vault s) the_agent_cap ONE_SUI
                    ACTION_LIMIT_ORDER 100000) = Some BudgetExceeded /\
  agent_withdraw the_agent_cap ONE_SUI ACTION_LIMIT_ORDER (at_time 100000) s
  = Failed ArithmeticError s /\
  ~ (forall cap amount action clock s k,
       first_violated (ordered_checks (s_vault s) cap amount action
                         (timestamp_ms clock)) = Some k ->
       agent_withdraw cap amount action clock s = Failed (rejected k) s).
Proof.
  cbv zeta. split; [apply budget_lowered_reachable|].
  split; [reflexivity|]. split; [reflexivity|].
  intros H.
  specialize (H the_agent_cap ONE_SUI ACTION_LIMIT_ORDER (at_time 100000)
                (store_of budget_lowered (ctx_of AGENT budget_lowered))
                BudgetExceeded eq_refl).
  vm_compute in H. discriminate H.
Qed.

(** Where the subtractions do not underflow, the order holds: the call
    fails at the earliest violated check, with the kind of that check and
    the store untouched; [reported] tells the two places where an
    underflow gets in first.  When no check is violated the call reports
    none of the nine kinds. *)
Theorem agent_withdraw_reports_earliest_violation cap amount action clock s :
  in_u64 (cooldown_ms (policy (s_vault s))) ->
  let v := s_vault s in
  let now := timestamp_ms clock in
  match first_violated (ordered_checks v cap amount action now) with
  | Some k =>
      agent_withdraw cap amount action clock s = Failed (reported v now k) s
      /\ (last_tx_time v <= now -> total_spent v <= max_budget (policy v) ->
          agent_withdraw cap amount action clock s = Failed (rejected k) s)
  | None =>
      forall f s', agent_withdraw cap amount action clock s = Failed f s' ->
                   f = ArithmeticError
  end.
Proof.
  intros [Hcd _]. cbv zeta.
  rewrite agent_withdraw_flat. cbv zeta.
  unfold ordered_checks, first_violated, reported.
  destruct (0 <? amount) eqn:E1; cbn [negb]; [|auto].
  destruct (agent_cap_vault_id cap =? object_id (s_vault s)); cbn [negb]; [|auto].
  destruct (member (agent_cap_id cap) (authorized_caps (s_vault s)));
    cbn [negb]; [|auto].
  destruct (timestamp_ms clock <? expires_at (policy (s_vault s)));
    cbn [negb]; [|auto].
  destruct (0 <? tx_count (s_vault s)); cbn [andb implb].
  1: destruct (cooldown_ms (policy (s_vault s))
               <=? timestamp_ms clock - last_tx_time (s_vault s)) eqn:E5;
     destruct (last_tx_time (s_vault s) <=? timestamp_ms clock) eqn:E5';
     cbn [negb]; bool_to_Z; try lia; [|split; [reflexivity | auto]
                                      |split; [reflexivity | lia]].
  all: destruct (amount <=? max_per_tx (policy (s_vault s))); cbn [negb]; [|auto].
  all: destruct (amount <=? max_budget (policy (s_vault s)) - total_spent (s_vault s))
         eqn:E7;
       destruct (total_spent (s_vault s) <=? max_budget (policy (s_vault s)))
         eqn:E7';
       cbn [negb]; bool_to_Z; try lia; [|split; [reflexivity | auto]
                                        |split; [reflexivity | lia]].
  all: destruct (member action (allowed_actions (policy (s_vault s))));
    cbn [negb]; [|auto].
  all: destruct (amount <=? value (balance_sui (s_vault s))); cbn [negb]; [|auto].
  all: intros f s' H; split_ifs H; congruence.
Qed.

Lemma agent_withdraw_reports_earliest_violation_witness :
  agent_withdraw the_agent_cap (2 * ONE_SUI) ACTION_LIMIT_ORDER (at_time 100000)
    (store_of after_one_withdrawal (ctx_of AGENT after_one_withdrawal))
  = Failed (rejected PerOperationLimitExceeded)
      (store_of after_one_withdrawal (ctx_of AGENT after_one_withdrawal)).
Proof.
  refine (proj2 (agent_withdraw_reports_earliest_violation the_agent_cap
            (2 * ONE_SUI) ACTION_LIMIT_ORDER (at_time 100000)
            (store_of after_one_withdrawal (ctx_of AGENT after_one_withdrawal))
            _) _ _).
  - vm_compute. split; discriminate.
  - vm_compute. discriminate.
  - vm_compute. discriminate.
Defined.

(** ** The pre-check *)

(** The pre-check as the first violated entry of [mirror_checks]. *)
Lemma checkPolicy_first_violated vd action now amount :
  PolicyChecker.checkPolicy vd action now amount =
  match first_violated (mirror_checks vd action now amount) with
  | None => {| PolicyChecker.allowed := true;
               PolicyChecker.reason := "Policy check passed" |}
  | Some k =>
      PolicyChecker.deny
        (mirror_reason vd action now
           (match amount with Some a => a | None => 0 end) k)
  end.
Proof.
  unfold PolicyChecker.checkPolicy, mirror_checks, mirror_reason.
  rewrite includes_member. cbn [app first_violated].
  rewrite (Z.leb_antisym now), (Z.ltb_antisym _ (now - _)).
  destruct (now <? PolicyChecker.expiresAt (PolicyChecker.policy vd));
    cbn [negb]; [|reflexivity].
  destruct (0 <? PolicyChecker.txCount vd); cbn [implb].
  1: destruct (PolicyChecker.cooldownMs (PolicyChecker.policy vd)
               <=? now - PolicyChecker.lastTxTime vd); cbn [negb];
     [|reflexivity].
  all: destruct (member action
                   (PolicyChecker.allowedActions (PolicyChecker.policy vd)));
    cbn [negb]; [|reflexivity].
  all: destruct amount as [a|]; cbn [first_violated]; [|reflexivity].
  all: rewrite (Z.leb_antisym 0 a),
         (Z.ltb_antisym a (PolicyChecker.maxPerTx _)),
         (Z.ltb_antisym a (_ - _)),
         (Z.ltb_antisym a (PolicyChecker.balance _)).
  all: destruct (0 <? a); cbn [negb]; [|reflexivity].
  all: destruct (a <=? PolicyChecker.maxPerTx (PolicyChecker.policy vd));
    cbn [negb]; [|reflexivity].
  all: destruct (a <=? PolicyChecker.maxBudget (PolicyChecker.policy vd)
                      - PolicyChecker.totalSpent vd); cbn [negb];
    [|reflexivity].
  all: destruct (a <=? PolicyChecker.balance vd); reflexivity.
Qed.

(** C9: the pre-check evaluates expiry, cooldown and the whitelist, then,
    when an amount is supplied, zero amount, the per-operation cap, the
    budget and the balance, and returns the reason of the first check
    that fails in that order.  The order is not the one of
    [agent_withdraw]: for a zero amount with a non-whitelisted action the
    pre-check names the whitelist while [agent_withdraw] reports
    [ZeroAmount]. *)
Theorem mirror_order_differs_from_authoritative :
  (forall vd action now amount,
     map snd (mirror_checks vd action now amount) =
     [Expired; CooldownActive; ActionNotWhitelisted]
     ++ match amount with
        | Some _ => [ZeroAmount; PerOperationLimitExceeded; BudgetExceeded;
                     InsufficientBalance]
        | None => []
        end) /\
  (forall vd action now amount,
     PolicyChecker.checkPolicy vd action now amount =
     match first_violated (mirror_checks vd action now amount) with
     | None => {| PolicyChecker.allowed := true;
                  PolicyChecker.reason := "Policy check passed" |}
     | Some k =>
         {| PolicyChecker.allowed := false;
            PolicyChecker.reason :=
              mirror_reason vd action now
                (match amount with Some a => a | None => 0 end) k |}
     end) /\
  (let s := store_of setup_vault_with_agent (ctx_of AGENT setup_vault_with_agent) in
   PolicyChecker.checkPolicy (snapshot (s_vault s)) ACTION_LIMIT_ORDER 1000 (Some 0)
   = {| PolicyChecker.allowed := false;
        PolicyChecker.reason := "Action type 1 is not whitelisted" |}
   /\ agent_withdraw the_agent_cap 0 ACTION_LIMIT_ORDER (at_time 1000) s
      = Failed (rejected ZeroAmount) s).
Proof.
  split; [|split].
  - intros vd action now [a|]; reflexivity.
  - intros vd action now amount. apply checkPolicy_first_violated.
  - split; reflexivity.
Qed.

(** ** Agreement of the two paths *)




(** ** The budget bound *)

Lemma failed_never_succeeds {A} (f : Failure) (s : Store) :
  ~ succeeds (@Failed A f s).
Proof. intros [a [s' H]]. discriminate H. Qed.

(** C3, as stated, fails: [update_policy] installs any budget, also one
    below what has been spent.  After one withdrawal of 1 SUI and a new
    budget of 0.5 SUI the vault has spent more than its budget, and the
    next withdrawal is refused by the underflow of the subtraction, not
    with [BudgetExceeded]. *)
Lemma lowering_the_budget_breaks_the_bound :
  let s := store_of budget_lowered (ctx_of AGENT budget_lowered) in
  reachable budget_lowered /\
  max_budget (policy (l_vault budget_lowered))
  < total_spent (l_vault budget_lowered) /\
  agent_withdraw the_agent_cap HALF_SUI ACTION_SWAP (at_time 100000) s
  = Failed ArithmeticError s /\
  ~ (forall l, reachable l ->
       total_spent (l_vault l) <= max_budget (policy (l_vault l))).
Proof.
  cbv zeta. split; [apply budget_lowered_reachable|].
  split; [reflexivity|]. split; [reflexivity|].
  intros H. specialize (H _ budget_lowered_reachable).
  vm_compute in H. apply H. reflexivity.
Qed.

(** C3 (amended): a new vault has spent nothing; every public function
    keeps [total_spent <= max_budget], [update_policy] provided that the
    new budget is not below what has been spent; a delegated withdrawal
    that would take [total_spent] over the budget never succeeds, and on a
    vault within its budget it is rejected with [BudgetExceeded] as soon
    as the six checks before the budget check pass. *)
Theorem budget_bound_preserved :
  (forall coin mb mp aa cd ex clock ctx,
     in_u64 mb ->
     let v := s_vault (create_vault coin mb mp aa cd ex clock ctx) in
     total_spent v <= max_budget (policy v)) /\
  (forall c clock s s',
     in_u64 (max_budget (policy (s_vault s))) ->
     total_spent (s_vault s) <= max_budget (policy (s_vault s)) ->
     (forall oc mb mp aa cd ex,
        c = UpdatePolicy oc mb mp aa cd ex -> total_spent (s_vault s) <= mb) ->
     run c clock s = Done tt s' ->
     total_spent (s_vault s') <= max_budget (policy (s_vault s'))) /\
  (forall cap amount action clock s,
     let v := s_vault s in
     max_budget (policy v) < total_spent v + amount ->
     ~ succeeds (agent_withdraw cap amount action clock s) /\
     (in_u64 (cooldown_ms (policy v)) ->
      total_spent v <= max_budget (policy v) ->
      first_violated
        (firstn 6 (ordered_checks v cap amount action (timestamp_ms clock)))
      = None ->
      agent_withdraw cap amount action clock s
      = Failed (rejected BudgetExceeded) s)).
Proof.
  split; [|split].
  - intros coin mb mp aa cd ex clock ctx [Hmb _]. cbn. exact Hmb.
  - intros c clock s s' [Hmb _] Hbound Hupd Hrun.
    destruct c; try specialize (Hupd _ _ _ _ _ _ eq_refl);
      cbn [run] in Hrun; unfold bind in Hrun;
      rewrite ?deposit_flat, ?withdraw_all_flat, ?withdraw_flat,
        ?reset_counters_flat, ?update_policy_flat, ?create_agent_cap_flat,
        ?revoke_agent_cap_flat, ?agent_withdraw_flat in Hrun;
      cbn zeta in Hrun; split_ifs Hrun; unfold ret in Hrun;
      injection Hrun as Hrun; subst; bool_to_Z; vault_fields; lia.
  - intros cap amount action clock s. cbv zeta. intros Hover.
    rewrite agent_withdraw_flat. cbv zeta.
    unfold ordered_checks, first_violated. cbn [firstn].
    destruct (0 <? amount); cbn [negb];
      [|split; [apply failed_never_succeeds | discriminate]].
    destruct (agent_cap_vault_id cap =? object_id (s_vault s)); cbn [negb];
      [|split; [apply failed_never_succeeds | discriminate]].
    destruct (member (agent_cap_id cap) (authorized_caps (s_vault s)));
      cbn [negb]; [|split; [apply failed_never_succeeds | discriminate]].
    destruct (timestamp_ms clock <? expires_at (policy (s_vault s)));
      cbn [negb]; [|split; [apply failed_never_succeeds | discriminate]].
    destruct (0 <? tx_count (s_vault s)); cbn [andb implb].
    1: destruct (last_tx_time (s_vault s) <=? timestamp_ms clock) eqn:E5';
       destruct (cooldown_ms (policy (s_vault s))
                 <=? timestamp_ms clock - last_tx_time (s_vault s)) eqn:E5;
       cbn [negb];
       try (split; [apply failed_never_succeeds | discriminate]);
       try (split; [apply failed_never_succeeds|]; intros [Hcd _] _ _;
            exfalso; bool_to_Z; lia).
    all: destruct (amount <=? max_per_tx (policy (s_vault s))); cbn [negb];
      [|split; [apply failed_never_succeeds | discriminate]].
    all: destruct (total_spent (s_vault s) <=? max_budget (policy (s_vault s)))
           eqn:E7'; cbn [negb];
      [|split; [apply failed_never_succeeds|]; intros; bool_to_Z; lia].
    all: destruct (amount <=? max_budget (policy (s_vault s))
                            - total_spent (s_vault s)) eqn:E7; cbn [negb];
      [bool_to_Z; lia|].
    all: split; [apply failed_never_succeeds | reflexivity].
Qed.

Lemma budget_bound_preserved_witness :
  ~ succeeds
      (agent_withdraw the_agent_cap ONE_SUI ACTION_SWAP (at_time 100000)
         (store_of budget_lowered (ctx_of AGENT budget_lowered))).
Proof.
  refine (proj1 (proj2 (proj2 budget_bound_preserved) the_agent_cap ONE_SUI
                   ACTION_SWAP (at_time 100000)
                   (store_of budget_lowered (ctx_of AGENT budget_lowered)) _)).
  vm_compute. reflexivity.
Defined.

(** ** The committed transition *)

(** C4: when the nine checks pass the call returns a coin of exactly
    [amount] and the vault is the old one with [amount] taken from the
    balance and added to [total_spent], the operation count advanced by
    one and the time of last use set to the clock; owner, policy and
    registry are untouched.  The call succeeds in no other case, and a
    failed call leaves the store as it found it. *)
Theorem agent_withdraw_transition cap amount action clock s :
  let v := s_vault s in
  let now := timestamp_ms clock in
  in_u64 (max_budget (policy v)) ->
  in_u64 (cooldown_ms (policy v)) ->
  tx_count v <= total_spent v ->
  (first_violated (ordered_checks v cap amount action now) = None ->
   exists coin s',
     agent_withdraw cap amount action clock s = Done coin s' /\
     coin_value coin = amount /\
     value (balance_sui (s_vault s')) = value (balance_sui v) - amount /\
     total_spent (s_vault s') = total_spent v + amount /\
     tx_count (s_vault s') = tx_count v + 1 /\
     last_tx_time (s_vault s') = now /\
     owner (s_vault s') = owner v /\
     policy (s_vault s') = policy v /\
     authorized_caps (s_vault s') = authorized_caps v /\
     vault_uid (s_vault s') = vault_uid v /\
     s_events s' = s_events s ++ [withdrawal_event v cap amount action now]) /\
  (forall coin s',
     agent_withdraw cap amount action clock s = Done coin s' ->
     first_violated (ordered_checks v cap amount action now) = None) /\
  (forall f s',
     agent_withdraw cap amount action clock s = Failed f s' -> s' = s).
Proof.
  cbv zeta. intros [_ Hmb] [Hcd _] Hcount.
  rewrite agent_withdraw_flat. cbv zeta.
  unfold ordered_checks, first_violated.
  destruct (0 <? amount) eqn:E1; cbn [negb];
    [|repeat split; intros; congruence].
  destruct (agent_cap_vault_id cap =? object_id (s_vault s)); cbn [negb];
    [|repeat split; intros; congruence].
  destruct (member (agent_cap_id cap) (authorized_caps (s_vault s)));
    cbn [negb]; [|repeat split; intros; congruence].
  destruct (timestamp_ms clock <? expires_at (policy (s_vault s)));
    cbn [negb]; [|repeat split; intros; congruence].
  destruct (0 <? tx_count (s_vault s)) eqn:E0; cbn [andb implb].
  1: destruct (last_tx_time (s_vault s) <=? timestamp_ms clock) eqn:E5';
     destruct (cooldown_ms (policy (s_vault s))
               <=? timestamp_ms clock - last_tx_time (s_vault s)) eqn:E5;
     cbn [negb]; try (repeat split; intros; congruence);
     try (exfalso; bool_to_Z; lia).
  all: destruct (amount <=? max_per_tx (policy (s_vault s))); cbn [negb];
    try (repeat split; intros; congruence).
  all: destruct (total_spent (s_vault s) <=? max_budget (policy (s_vault s)))
         eqn:E7';
       destruct (amount <=? max_budget (policy (s_vault s))
                          - total_spent (s_vault s)) eqn:E7;
       cbn [negb]; try (repeat split; intros; congruence);
       try (exfalso; bool_to_Z; lia).
  all: destruct (member action (allowed_actions (policy (s_vault s))));
    cbn [negb]; try (repeat split; intros; congruence).
  all: destruct (amount <=? value (balance_sui (s_vault s))); cbn [negb];
    try (repeat split; intros; congruence).
  all: destruct (total_spent (s_vault s) + amount <=? MAX_U64) eqn:Ea;
       destruct (tx_count (s_vault s) + 1 <=? MAX_U64) eqn:Eb;
       try (exfalso; bool_to_Z; lia); cbn [negb].
  all: split; [|split; intros; congruence].
  all: intros _; eexists; eexists; split; [reflexivity|];
       repeat split; reflexivity.
Qed.

Lemma agent_withdraw_transition_witness :
  exists coin s',
    agent_withdraw the_agent_cap ONE_SUI ACTION_SWAP (at_time 61000)
      (store_of after_one_withdrawal (ctx_of AGENT after_one_withdrawal))
    = Done coin s'
    /\ coin_value coin = ONE_SUI
    /\ total_spent (s_vault s') = 2 * ONE_SUI
    /\ tx_count (s_vault s') = 2.
Proof.
  destruct (proj1 (agent_withdraw_transition the_agent_cap ONE_SUI
              ACTION_SWAP (at_time 61000)
              (store_of after_one_withdrawal
                 (ctx_of AGENT after_one_withdrawal))
              ltac:(vm_compute; split; discriminate)
              ltac:(vm_compute; split; discriminate)
              ltac:(vm_compute; discriminate))
             eq_refl)
    as [coin [s' [Hrun [Hcoin [_ [Hspent [Hcount _]]]]]]].
  exists coin, s'. repeat split; assumption.
Defined.

(** ** Boundaries *)

Lemma done_succeeds {A} (a : A) (s : Store) : succeeds (Done a s).
Proof. exists a, s. reflexivity. Qed.

(** A withdrawal that passes every check of the list succeeds. *)
Lemma all_checks_pass_succeeds cap amount action clock s :
  let v := s_vault s in
  in_u64 (max_budget (policy v)) ->
  in_u64 (cooldown_ms (policy v)) ->
  tx_count v <= total_spent v ->
  first_violated (ordered_checks v cap amount action (timestamp_ms clock))
  = None ->
  succeeds (agent_withdraw cap amount action clock s).
Proof.
  cbv zeta. intros [_ Hmb] [Hcd _] Hcount.
  rewrite agent_withdraw_flat. cbv zeta.
  unfold ordered_checks, first_violated.
  destruct (0 <? amount) eqn:E1; [|discriminate].
  destruct (agent_cap_vault_id cap =? object_id (s_vault s)); [|discriminate].
  destruct (member (agent_cap_id cap) (authorized_caps (s_vault s)));
    [|discriminate].
  destruct (timestamp_ms clock <? expires_at (policy (s_vault s)));
    [|discriminate].
  destruct (0 <? tx_count (s_vault s)) eqn:E0;
  destruct (cooldown_ms (policy (s_vault s))
            <=? timestamp_ms clock - last_tx_time (s_vault s)) eqn:E5;
  cbn [implb andb negb]; try discriminate.
  all: destruct (amount <=? max_per_tx (policy (s_vault s))); [|discriminate].
  all: destruct (amount <=? max_budget (policy (s_vault s))
                          - total_spent (s_vault s)) eqn:E7; [|discriminate].
  all: destruct (member action (allowed_actions (policy (s_vault s))));
    [|discriminate].
  all: destruct (amount <=? value (balance_sui (s_vault s))); [|discriminate].
  all: intros _; bool_to_Z.
  all: repeat match goal with
       | |- context [?a <=? ?b] =>
           let E := fresh "E" in
           destruct (a <=? b) eqn:E; bool_to_Z; try lia
       end.
  all: apply done_succeeds.
Qed.

Lemma FailureKind_eqb_eq a b : FailureKind_eqb a b = true -> a = b.
Proof. destruct a, b; cbn; intros H; first [reflexivity | discriminate H]. Qed.

(** If every check passes, those of kind [k] set aside, and those of kind
    [k] pass as well, no check is violated. *)
Lemma passes_all_but_none k checks :
  passes_all_but k checks = true ->
  (forall b, In (b, k) checks -> b = true) ->
  first_violated checks = None.
Proof.
  unfold passes_all_but.
  induction checks as [|[b k'] rest IH]; cbn [forallb first_violated fst snd];
    [reflexivity|].
  intros H Hk. apply andb_true_iff in H as [Hhead Hrest].
  destruct b.
  - apply IH; [assumption|]. intros b Hb. apply Hk. now right.
  - cbn in Hhead. apply FailureKind_eqb_eq in Hhead. subst k'.
    discriminate (Hk false (or_introl eq_refl)).
Qed.

Lemma mirror_allows_iff vd action now amount :
  PolicyChecker.allowed (PolicyChecker.checkPolicy vd action now amount) = true
  <-> first_violated (mirror_checks vd action now amount) = None.
Proof.
  rewrite checkPolicy_first_violated.
  destruct (first_violated (mirror_checks vd action now amount)); cbn;
    split; congruence.
Qed.

Ltac pick_check :=
  let b := fresh "b" in
  let Hb := fresh "Hb" in
  intros b Hb; cbn [In] in Hb;
  repeat (destruct Hb as [Hb | Hb]; [try discriminate Hb|]);
  try contradiction;
  try (injection Hb as <-).

(** C5: in [agent_withdraw] and in the pre-check alike, an amount equal
    to the per-operation cap, to the remaining budget or to the balance,
    and an elapsed time equal to the cooldown, pass their check: the
    request goes through whenever the other checks pass.  A clock equal
    to [expires_at] is refused as expired, and an empty whitelist refuses
    every action. *)
Theorem limits_inclusive_expiry_exclusive cap amount action clock s :
  let v := s_vault s in
  let now := timestamp_ms clock in
  let checks := ordered_checks v cap amount action now in
  let mirror := PolicyChecker.checkPolicy (snapshot v) action now in
  let passes k :=
    (passes_all_but k checks = true ->
     succeeds (agent_withdraw cap amount action clock s)) /\
    (passes_all_but k (mirror_checks (snapshot v) action now (Some amount))
     = true ->
     PolicyChecker.allowed (mirror (Some amount)) = true) in
  in_u64 (max_budget (policy v)) ->
  in_u64 (cooldown_ms (policy v)) ->
  tx_count v <= total_spent v ->
  (amount = max_per_tx (policy v) -> passes PerOperationLimitExceeded) /\
  (amount = max_budget (policy v) - total_spent v -> passes BudgetExceeded) /\
  (amount = value (balance_sui v) -> passes InsufficientBalance) /\
  (now - last_tx_time v = cooldown_ms (policy v) -> passes CooldownActive) /\
  (now = expires_at (policy v) ->
   ~ succeeds (agent_withdraw cap amount action clock s) /\
   (first_violated (firstn 3 checks) = None ->
    agent_withdraw cap amount action clock s = Failed (rejected Expired) s) /\
   (forall a, mirror a = PolicyChecker.deny "Policy has expired")) /\
  (allowed_actions (policy v) = [] ->
   ~ succeeds (agent_withdraw cap amount action clock s) /\
   (first_violated (firstn 7 checks) = None ->
    agent_withdraw cap amount action clock s
    = Failed (rejected ActionNotWhitelisted) s) /\
   (forall a, PolicyChecker.allowed (mirror a) = false)).
Proof.
  cbv zeta. intros Hmb Hcd Hcount.
  assert (Hpass : forall k,
    (forall b, In (b, k) (ordered_checks (s_vault s) cap amount action
                            (timestamp_ms clock)) -> b = true) ->
    (forall b, In (b, k) (mirror_checks (snapshot (s_vault s)) action
                            (timestamp_ms clock) (Some amount)) -> b = true) ->
    (passes_all_but k (ordered_checks (s_vault s) cap amount action
                         (timestamp_ms clock)) = true ->
     succeeds (agent_withdraw cap amount action clock s)) /\
    (passes_all_but k (mirror_checks (snapshot (s_vault s)) action
                         (timestamp_ms clock) (Some amount)) = true ->
     PolicyChecker.allowed
       (PolicyChecker.checkPolicy (snapshot (s_vault s)) action
          (timestamp_ms clock) (Some amount)) = true)).
  { intros k Ha Hm. split; intros Hp.
    - apply all_checks_pass_succeeds; try assumption.
      now apply (passes_all_but_none k).
    - apply mirror_allows_iff. now apply (passes_all_but_none k). }
  repeat apply conj.
  - intros ->. apply Hpass; unfold ordered_checks, mirror_checks; cbn [app];
      pick_check; apply Z.leb_refl.
  - intros ->. apply Hpass; unfold ordered_checks, mirror_checks; cbn [app];
      pick_check; apply Z.leb_refl.
  - intros ->. apply Hpass; unfold ordered_checks, mirror_checks; cbn [app];
      pick_check; apply Z.leb_refl.
  - intros Heq. apply Hpass; unfold ordered_checks, mirror_checks, snapshot;
      cbn [app PolicyChecker.policy PolicyChecker.cooldownMs
           PolicyChecker.lastTxTime PolicyChecker.txCount];
      pick_check; rewrite Heq, Z.leb_refl; apply implb_true_r.
  - intros Hexp. repeat apply conj.
    + rewrite agent_withdraw_flat. cbv zeta.
    rewrite Hexp, Z.ltb_irrefl.
    destruct (negb (0 <? amount)); [apply failed_never_succeeds|].
    destruct (negb (agent_cap_vault_id cap =? object_id (s_vault s)));
      [apply failed_never_succeeds|].
    destruct (negb (member (agent_cap_id cap) (authorized_caps (s_vault s))));
      apply failed_never_succeeds.
    + rewrite agent_withdraw_flat. cbv zeta.
    unfold ordered_checks, first_violated. cbn [firstn].
    rewrite Hexp, Z.ltb_irrefl.
    destruct (0 <? amount); [|discriminate].
    destruct (agent_cap_vault_id cap =? object_id (s_vault s)); [|discriminate].
    destruct (member (agent_cap_id cap) (authorized_caps (s_vault s)));
      [|discriminate].
    reflexivity.
    + intros a. unfold PolicyChecker.checkPolicy, snapshot.
    cbn [PolicyChecker.policy PolicyChecker.expiresAt].
    rewrite Hexp, Z.leb_refl. reflexivity.
  - intros Hempty. repeat apply conj.
    + intros Hs. destruct Hs as [coin [s' Hrun]].
    rewrite agent_withdraw_flat in Hrun. cbv zeta in Hrun.
    rewrite Hempty in Hrun. cbn [member existsb negb] in Hrun.
    split_ifs Hrun.
    + rewrite agent_withdraw_flat. cbv zeta.
    unfold ordered_checks, first_violated. cbn [firstn].
    rewrite Hempty. cbn [member existsb negb].
    destruct Hcd as [Hcd _].
    destruct (0 <? amount) eqn:E1; [|discriminate].
    destruct (agent_cap_vault_id cap =? object_id (s_vault s)); [|discriminate].
    destruct (member (agent_cap_id cap) (authorized_caps (s_vault s)));
      [|discriminate].
    destruct (timestamp_ms clock <? expires_at (policy (s_vault s)));
      [|discriminate].
    destruct (0 <? tx_count (s_vault s)) eqn:E0;
    destruct (cooldown_ms (policy (s_vault s))
              <=? timestamp_ms clock - last_tx_time (s_vault s)) eqn:E5;
    cbn [implb andb negb]; try discriminate.
    all: destruct (amount <=? max_per_tx (policy (s_vault s))); [|discriminate].
    all: destruct (amount <=? max_budget (policy (s_vault s))
                            - total_spent (s_vault s)) eqn:E7; [|discriminate].
    all: intros _; bool_to_Z.
    all: repeat match goal with
         | |- context [?a <=? ?b] =>
             let E := fresh "E" in
             destruct (a <=? b) eqn:E; bool_to_Z; try lia
         end.
    all: reflexivity.
    + intros a. rewrite checkPolicy_first_violated.
    unfold mirror_checks, snapshot.
    cbn [app PolicyChecker.policy PolicyChecker.allowedActions first_violated].
    rewrite Hempty. cbn [member existsb].
    repeat match goal with
    | |- context [if ?b then _ else _] => destruct b
    end; reflexivity.
Qed.

Lemma limits_inclusive_expiry_exclusive_witness :
  succeeds
    (agent_withdraw the_agent_cap ONE_SUI ACTION_SWAP (at_time 61000)
       (store_of after_one_withdrawal (ctx_of AGENT after_one_withdrawal))).
Proof.
  refine (proj1 (proj1 (proj2 (proj2 (proj2
            (limits_inclusive_expiry_exclusive the_agent_cap ONE_SUI
               ACTION_SWAP (at_time 61000)
               (store_of after_one_withdrawal
                  (ctx_of AGENT after_one_withdrawal)) _ _ _)))) _) _).
  - vm_compute. split; discriminate.
  - vm_compute. split; discriminate.
  - vm_compute. discriminate.
  - reflexivity.
  - reflexivity.
Defined.

(** ** The first withdrawal and the cooldown *)

(** C6: a new vault and a vault whose counters were just reset have an
    operation count of zero, and with an operation count of zero
    [agent_withdraw] never reports [CooldownActive]: its verdict is the
    same for every cooldown and every time of last use, at every clock.
    The cooldown is looked at only when the operation count is
    positive. *)
Theorem first_withdrawal_skips_cooldown :
  (forall coin mb mp aa cd ex clock ctx,
     tx_count (s_vault (create_vault coin mb mp aa cd ex clock ctx)) = 0) /\
  (forall oc s s',
     reset_counters oc s = Done tt s' -> tx_count (s_vault s') = 0) /\
  (forall cap amount action clock s,
     tx_count (s_vault s) = 0 ->
     verdict (agent_withdraw cap amount action clock s)
     <> Some (rejected CooldownActive)
     /\ forall cd last,
          verdict (agent_withdraw cap amount action clock
                     (with_vault (with_cooldown cd last (s_vault s)) s))
          = verdict (agent_withdraw cap amount action clock s)) /\
  (forall cap amount action clock s,
     verdict (agent_withdraw cap amount action clock s)
     = Some (rejected CooldownActive) ->
     0 < tx_count (s_vault s)).
Proof.
  assert (Hcool : forall cap amount action clock s,
            verdict (agent_withdraw cap amount action clock s)
            = Some (rejected CooldownActive) ->
            0 < tx_count (s_vault s)).
  { intros cap amount action clock s. rewrite agent_withdraw_flat. cbv zeta.
    destruct (0 <? tx_count (s_vault s)) eqn:E0; [bool_to_Z; intros; lia|].
    cbn [andb]. intros H.
    repeat match type of H with
    | context [if ?b then _ else _] => destruct b
    end; discriminate H. }
  repeat apply conj.
  - reflexivity.
  - intros oc s s' H. rewrite reset_counters_flat in H. cbv zeta in H.
    split_ifs H. injection H as <-. reflexivity.
  - intros cap amount action clock s H. split;
      [intros Hv; apply Hcool in Hv; lia|].
    intros cd last. rewrite !agent_withdraw_flat. cbv zeta.
    unfold object_id.
    cbn [with_vault with_cooldown s_vault set_last_tx_time set_policy
         vault_uid owner balance_sui policy authorized_caps total_spent
         last_tx_time tx_count object_id max_budget max_per_tx
         allowed_actions cooldown_ms expires_at].
    rewrite H. cbn [Z.ltb Z.compare andb].
    repeat match goal with
    | |- context [if ?b then _ else _] => destruct b
    end; reflexivity.
  - exact Hcool.
Qed.

Lemma first_withdrawal_skips_cooldown_witness :
  verdict (agent_withdraw the_agent_cap ONE_SUI ACTION_SWAP (at_time 5)
             (store_of setup_vault_with_agent
                (ctx_of AGENT setup_vault_with_agent)))
  <> Some (rejected CooldownActive).
Proof.
  refine (proj1 (proj1 (proj2 (proj2 first_withdrawal_skips_cooldown))
                   the_agent_cap ONE_SUI ACTION_SWAP (at_time 5)
                   (store_of setup_vault_with_agent
                      (ctx_of AGENT setup_vault_with_agent)) _)).
  reflexivity.
Defined.

(** ** Revocation *)

Lemma not_member x l : ~ In x l -> member x l = false.
Proof.
  intros H. destruct (member x l) eqn:E; [|reflexivity].
  apply member_In in E. contradiction.
Qed.

(** C7, as stated, fails: the zero-amount check comes before the
    capability checks, so a withdrawal of zero that presents the revoked
    capability is refused with [ZeroAmount], not [InvalidCapability]. *)
Lemma revoked_capability_zero_amount :
  let s := store_of cap_revoked (ctx_of AGENT cap_revoked) in
  reachable cap_revoked /\
  ~ In (agent_cap_id the_agent_cap) (authorized_caps (s_vault s)) /\
  agent_withdraw the_agent_cap 0 ACTION_SWAP (at_time 1000) s
  = Failed (rejected ZeroAmount) s /\
  ~ (forall oc cap_id s s' cap amount action clock,
       revoke_agent_cap oc cap_id s = Done tt s' ->
       agent_cap_id cap = cap_id ->
       agent_withdraw cap amount action clock s'
       = Failed (rejected InvalidCapability) s').
Proof.
  cbv zeta. split; [apply cap_revoked_reachable|].
  split; [intros []|]. split; [reflexivity|].
  intros H.
  specialize (H the_owner_cap 102
                (store_of setup_vault_with_agent
                   (ctx_of OWNER setup_vault_with_agent))
                _ the_agent_cap 0 ACTION_SWAP (at_time 1000)
                eq_refl eq_refl).
  vm_compute in H. discriminate H.
Qed.

(** C7 (amended): with a valid owner capability, revoking an identifier
    that is not in the registry fails with [InvalidCapability]; revoking
    one that is there succeeds and takes that identifier, and no other,
    out of the registry.  From then on, whatever transactions follow,
    every delegated withdrawal that presents a capability with that
    identifier fails: with [InvalidCapability] when the amount is
    positive and with [ZeroAmount] when it is zero. *)
Theorem revoked_capability_is_refused oc cap_id ctx clock0 l :
  let s := store_of l ctx in
  ledger_inv l ->
  l_fresh l <= fresh ctx ->
  owner_cap_vault_id oc = object_id (l_vault l) ->
  (~ In cap_id (authorized_caps (l_vault l)) ->
   revoke_agent_cap oc cap_id s = Failed (rejected InvalidCapability) s) /\
  (In cap_id (authorized_caps (l_vault l)) ->
   exists s',
     revoke_agent_cap oc cap_id s = Done tt s' /\
     (forall x, In x (authorized_caps (s_vault s'))
                <-> In x (authorized_caps (l_vault l)) /\ x <> cap_id) /\
     forall l' cap amount action clock ctx',
       steps (ledger_of s' clock0) l' ->
       agent_cap_id cap = cap_id ->
       agent_withdraw cap amount action clock (store_of l' ctx')
       = Failed (rejected (if 0 <? amount then InvalidCapability
                           else ZeroAmount))
           (store_of l' ctx')).
Proof.
  cbv zeta. intros Hinv Hfresh Howner. apply Z.eqb_eq in Howner.
  split; intros Hin; rewrite revoke_agent_cap_flat; cbv zeta;
    cbn [store_of s_vault]; rewrite Howner; cbn [negb].
  - now rewrite (not_member _ _ Hin).
  - pose proof (inv_caps_nodup _ Hinv) as Hnd.
    pose proof (inv_caps_old _ Hinv _ Hin) as Hold.
    pose proof Hin as Hmem. apply member_In in Hmem. rewrite Hmem. cbn [negb].
    eexists. split; [reflexivity|].
    assert (Hcaps : forall x,
              In x (remove (authorized_caps (l_vault l))
                      (snd (index_of (authorized_caps (l_vault l)) cap_id)))
              <-> In x (authorized_caps (l_vault l)) /\ x <> cap_id).
    { intros x. apply remove_index_of; [assumption|].
      now rewrite index_of_member. }
    split; [exact Hcaps|].
    intros l' cap amount action clock ctx' Hsteps Hid.
    destruct (steps_keep_revoked_out _ _ cap_id Hsteps) as [_ Hout].
    + cbn. lia.
    + cbn. intros Hx. apply Hcaps in Hx. tauto.
    + rewrite agent_withdraw_flat. cbv zeta. cbn [store_of s_vault].
      rewrite Hid, (not_member _ _ Hout).
      destruct (0 <? amount); cbn [negb]; [|reflexivity].
      destruct (agent_cap_vault_id cap =? object_id (l_vault l'));
        reflexivity.
Qed.

Lemma revoked_capability_is_refused_witness :
  exists s',
    revoke_agent_cap the_owner_cap 102
      (store_of setup_vault_with_agent (ctx_of OWNER setup_vault_with_agent))
    = Done tt s' /\
    agent_withdraw the_agent_cap ONE_SUI ACTION_SWAP (at_time 1000)
      (store_of (ledger_of s' (at_time 10)) {| sender := AGENT; fresh := 500 |})
    = Failed (rejected InvalidCapability)
        (store_of (ledger_of s' (at_time 10))
           {| sender := AGENT; fresh := 500 |}).
Proof.
  destruct (proj2 (revoked_capability_is_refused the_owner_cap 102
                     (ctx_of OWNER setup_vault_with_agent) (at_time 10)
                     setup_vault_with_agent
                     (reachable_inv _ setup_vault_with_agent_reachable)
                     ltac:(cbn; lia) eq_refl)
                  (or_introl eq_refl))
    as [s' [Hrun [_ Hafter]]].
  exists s'. split; [exact Hrun|].
  exact (Hafter _ the_agent_cap ONE_SUI ACTION_SWAP (at_time 1000)
           {| sender := AGENT; fresh := 500 |} (steps_refl _) eq_refl).
Defined.

(** ** Owner withdrawals *)

(** C8: with a valid owner capability, [withdraw] fails with [ZeroAmount]
    for an amount of zero and with [InsufficientBalance] for an amount
    above the balance, and otherwise pays out exactly the amount;
    [withdraw_all] always succeeds, empties the balance and returns a coin
    of exactly the former balance.  Neither touches [total_spent],
    [tx_count] or [last_tx_time]. *)
Theorem owner_withdrawals oc amount s :
  let v := s_vault s in
  owner_cap_vault_id oc = object_id v ->
  in_u64 (value (balance_sui v)) ->
  (amount = 0 -> withdraw oc amount s = Failed (rejected ZeroAmount) s) /\
  (value (balance_sui v) < amount ->
   withdraw oc amount s = Failed (rejected InsufficientBalance) s) /\
  (exists coin s',
     withdraw_all oc s = Done coin s' /\
     coin_value coin = value (balance_sui v) /\
     value (balance_sui (s_vault s')) = 0 /\
     total_spent (s_vault s') = total_spent v /\
     tx_count (s_vault s') = tx_count v /\
     last_tx_time (s_vault s') = last_tx_time v) /\
  (forall coin s',
     withdraw oc amount s = Done coin s' ->
     coin_value coin = amount /\
     value (balance_sui (s_vault s')) = value (balance_sui v) - amount /\
     total_spent (s_vault s') = total_spent v /\
     tx_count (s_vault s') = tx_count v /\
     last_tx_time (s_vault s') = last_tx_time v).
Proof.
  cbv zeta. intros Howner [Hbal _]. apply Z.eqb_eq in Howner.
  rewrite withdraw_flat, withdraw_all_flat. cbv zeta.
  rewrite Howner. cbn [negb].
  repeat apply conj.
  - intros ->. reflexivity.
  - intros Hlt.
    destruct (0 <? amount) eqn:E1; bool_to_Z; [|lia].
    destruct (amount <=? value (balance_sui (s_vault s))) eqn:E2; bool_to_Z;
      [lia | reflexivity].
  - eexists. eexists. split; [reflexivity|]. cbn. repeat split. lia.
  - intros coin s' H. split_ifs H. injection H as <- <-. cbn. tauto.
Qed.

Lemma owner_withdrawals_witness :
  withdraw the_owner_cap (TEN_SUI + 1)
    (store_of after_one_withdrawal (ctx_of OWNER after_one_withdrawal))
  = Failed (rejected InsufficientBalance)
      (store_of after_one_withdrawal (ctx_of OWNER after_one_withdrawal)).
Proof.
  refine (proj1 (proj2 (owner_withdrawals the_owner_cap (TEN_SUI + 1)
                   (store_of after_one_withdrawal
                      (ctx_of OWNER after_one_withdrawal)) _ _)) _).
  - reflexivity.
  - vm_compute. split; discriminate.
  - reflexivity.
Defined.

(** ** Deposits *)

(** C10: [deposit] checks nothing about the amount.  With an owner
    capability bound to the vault a coin of value zero is accepted, the
    balance stays as it was and a [Deposited] event with amount 0 is
    emitted; any coin is accepted as long as the balance stays a [u64].
    With a capability bound to another vault the call fails with
    [NotOwner], and [deposit] raises no other abort code. *)
Theorem deposit_accepts_zero oc coin s :
  let v := s_vault s in
  in_u64 (value (balance_sui v)) ->
  (owner_cap_vault_id oc <> object_id v ->
   deposit oc coin s = Failed (rejected NotOwner) s) /\
  (owner_cap_vault_id oc = object_id v ->
   value (balance_sui v) + coin_value coin <= MAX_U64 ->
   exists s',
     deposit oc coin s = Done tt s' /\
     value (balance_sui (s_vault s')) = value (balance_sui v) + coin_value coin /\
     s_events s' = s_events s ++
       [Deposited (object_id v) (coin_value coin)
                  (value (balance_sui v) + coin_value coin)]) /\
  (owner_cap_vault_id oc = object_id v ->
   coin_value coin = 0 ->
   exists s',
     deposit oc coin s = Done tt s' /\
     value (balance_sui (s_vault s')) = value (balance_sui v) /\
     s_events s' = s_events s ++
       [Deposited (object_id v) 0 (value (balance_sui v))]) /\
  (forall location code s',
     deposit oc coin s = Failed (MoveAbort location code) s' ->
     location = agent_vault_module /\ code = E_NOT_OWNER /\
     owner_cap_vault_id oc <> object_id v) /\
  (value (balance_sui v) + coin_value coin <= MAX_U64 ->
   forall f s',
     deposit oc coin s = Failed f s' ->
     f = rejected NotOwner /\ s' = s /\
     owner_cap_vault_id oc <> object_id v).
Proof.
  cbv zeta. intros [_ Hbal]. rewrite deposit_flat. cbv zeta.
  repeat apply conj.
  - intros Hne. apply Z.eqb_neq in Hne. rewrite Hne. reflexivity.
  - intros Heq Hsum. apply Z.eqb_eq in Heq. apply Z.leb_le in Hsum.
    rewrite Heq, Hsum. cbn [negb]. eexists. split; [reflexivity|].
    split; reflexivity.
  - intros Heq Hzero. apply Z.eqb_eq in Heq. rewrite Heq, Hzero, Z.add_0_r.
    apply Z.leb_le in Hbal. rewrite Hbal. cbn [negb].
    eexists. split; [reflexivity|]. split; reflexivity.
  - intros location code s' H.
    destruct (owner_cap_vault_id oc =? object_id (s_vault s)) eqn:E;
      cbn [negb] in H.
    + split_ifs H.
    + injection H as <- <- <-. bool_to_Z. auto.
  - intros Hsum f s' H. apply Z.leb_le in Hsum. rewrite Hsum in H.
    cbn [negb] in H.
    destruct (owner_cap_vault_id oc =? object_id (s_vault s)) eqn:E;
      cbn [negb] in H; [discriminate H|].
    injection H as <- <-. bool_to_Z. auto.
Qed.

Lemma deposit_accepts_zero_witness :
  exists s',
    deposit the_owner_cap (minted 0)
      (store_of setup_vault (ctx_of OWNER setup_vault)) = Done tt s' /\
    value (balance_sui (s_vault s')) = TEN_SUI /\
    s_events s' = l_events setup_vault ++ [Deposited 100 0 TEN_SUI].
Proof.
  refine (proj1 (proj2 (proj2 (deposit_accepts_zero the_owner_cap (minted 0)
                   (store_of setup_vault (ctx_of OWNER setup_vault)) _)))
                _ _).
  - vm_compute. split; discriminate.
  - reflexivity.
  - reflexivity.
Defined.

(** ** The scenarios of the test suites *)

Example five_withdrawals_then_budget_exceeded :
  total_spent (l_vault five_withdrawals) = DEFAULT_MAX_BUDGET /\
  tx_count (l_vault five_withdrawals) = 5 /\
  value (balance_sui (l_vault five_withdrawals)) = 5 * ONE_SUI /\
  agent_withdraw the_agent_cap ONE_SUI ACTION_SWAP (at_time 306000)
    (as_agent five_withdrawals)
  = Failed (rejected BudgetExceeded) (as_agent five_withdrawals).
Proof. repeat split; reflexivity. Qed.

Example two_sui_exceeds_the_per_tx_limit :
  agent_withdraw the_agent_cap (2 * ONE_SUI) ACTION_SWAP (at_time 1000)
    (as_agent setup_vault_with_agent)
  = Failed (rejected PerOperationLimitExceeded)
      (as_agent setup_vault_with_agent).
Proof. reflexivity. Qed.

Example second_withdrawal_within_cooldown :
  agent_withdraw the_agent_cap ONE_SUI ACTION_SWAP (at_time (1000 + 59999))
    (as_agent after_one_withdrawal)
  = Failed (rejected CooldownActive) (as_agent after_one_withdrawal).
Proof. reflexivity. Qed.

Example action_not_whitelisted :
  agent_withdraw the_agent_cap ONE_SUI ACTION_LIMIT_ORDER (at_time 1000)
    (as_agent setup_vault_with_agent)
  = Failed (rejected ActionNotWhitelisted) (as_agent setup_vault_with_agent).
Proof. reflexivity. Qed.

Example expired_policy :
  agent_withdraw the_agent_cap ONE_SUI ACTION_SWAP (at_time DEFAULT_EXPIRES_AT)
    (as_agent setup_vault_with_agent)
  = Failed (rejected Expired) (as_agent setup_vault_with_agent).
Proof. reflexivity. Qed.

Example revoked_cap_is_invalid :
  agent_withdraw the_agent_cap HALF_SUI ACTION_SWAP (at_time 1000)
    (as_agent cap_revoked)
  = Failed (rejected InvalidCapability) (as_agent cap_revoked).
Proof. reflexivity. Qed.

Example mirror_rejects_during_cooldown :
  PolicyChecker.checkPolicy (snapshot (l_vault after_one_withdrawal))
    ACTION_SWAP 11000 (Some (ONE_SUI / 10))
  = {| PolicyChecker.allowed := false;
       PolicyChecker.reason := "Cooldown active: 50s remaining" |}.
Proof. reflexivity. Qed.

Example mirror_rejects_over_budget :
  PolicyChecker.checkPolicy (snapshot (l_vault five_withdrawals))
    ACTION_SWAP 306000 (Some ONE_SUI)
  = {| PolicyChecker.allowed := false;
       PolicyChecker.reason :=
         "Amount 1000000000 exceeds remaining budget 0" |}.
Proof. reflexivity. Qed.

Example mirror_allows_without_amount :
  PolicyChecker.checkPolicy (snapshot (l_vault setup_vault_with_agent))
    ACTION_SWAP 1000 None
  = {| PolicyChecker.allowed := true;
       PolicyChecker.reason := "Policy check passed" |}.
Proof. reflexivity. Qed.

(** * Further properties of the contract *)

(** ** The owner guard *)

Lemma owner_guard c oc clock s :
  owner_cap_of c = Some oc ->
  (owner_cap_vault_id oc <> object_id (s_vault s) ->
   run c clock s = Failed (rejected NotOwner) s) /\
  (owner_cap_vault_id oc = object_id (s_vault s) ->
   verdict (run c clock s) <> Some (rejected NotOwner)).
Proof.
  intros Hc. split; intros Hid.
  - apply Z.eqb_neq in Hid.
    destruct c; cbn in Hc; inversion Hc; subst; cbn [run]; unfold bind;
      rewrite ?deposit_flat, ?withdraw_all_flat, ?withdraw_flat,
        ?reset_counters_flat, ?update_policy_flat, ?create_agent_cap_flat,
        ?revoke_agent_cap_flat; cbv zeta; rewrite Hid; reflexivity.
  - apply Z.eqb_eq in Hid.
    destruct c; cbn in Hc; inversion Hc; subst; cbn [run]; unfold bind;
      rewrite ?deposit_flat, ?withdraw_all_flat, ?withdraw_flat,
        ?reset_counters_flat, ?update_policy_flat, ?create_agent_cap_flat,
        ?revoke_agent_cap_flat; cbv zeta; rewrite Hid; cbn [negb];
      repeat match goal with
      | |- context [if ?b then _ else _] => destruct b
      end; cbn; discriminate.
Qed.

(** X1: every owner-only function checks the capability before anything
    else: with a capability bound to another vault the call fails with
    [NotOwner] and leaves the store untouched, whatever the other
    arguments are; with a capability bound to this vault it never fails
    with [NotOwner]. *)
Theorem owner_functions_are_guarded c oc clock s :
  owner_cap_of c = Some oc ->
  (owner_cap_vault_id oc <> object_id (s_vault s) ->
   run c clock s = Failed (rejected NotOwner) s) /\
  (owner_cap_vault_id oc = object_id (s_vault s) ->
   verdict (run c clock s) <> Some (rejected NotOwner)).
Proof. apply owner_guard. Qed.

Lemma owner_functions_are_guarded_witness :
  run (Withdraw {| owner_cap_uid := {| to_inner := 7 |};
                   owner_cap_vault_id := 8 |} 0)
      (at_time 5) (store_of setup_vault (ctx_of OWNER setup_vault))
  = Failed (rejected NotOwner) (store_of setup_vault (ctx_of OWNER setup_vault)).
Proof.
  refine (proj1 (owner_functions_are_guarded
                   (Withdraw {| owner_cap_uid := {| to_inner := 7 |};
                                owner_cap_vault_id := 8 |} 0)
                   _ (at_time 5)
                   (store_of setup_vault (ctx_of OWNER setup_vault))
                   eq_refl) _).
  vm_compute. discriminate.
Defined.

(** ** A new vault *)


(** ** Funds *)

(** X3: a successful call changes the balance by exactly the funds it
    moves: a deposit adds the value of its coin, a withdrawal (by the
    owner or by an agent) takes out the amount paid, [withdraw_all] the
    whole balance, and no other function touches the balance. *)
Theorem funds_are_conserved c clock s s' :
  run c clock s = Done tt s' ->
  value (balance_sui (s_vault s'))
  = value (balance_sui (s_vault s)) + net_flow c (s_vault s).
Proof.
  intros Hrun. run_cases c Hrun; vault_fields; cbn [net_flow]; lia.
Qed.

Lemma funds_are_conserved_witness :
  value (balance_sui (l_vault after_one_withdrawal)) = TEN_SUI + - ONE_SUI.
Proof.
  exact (funds_are_conserved
           (AgentWithdraw the_agent_cap ONE_SUI ACTION_SWAP) (at_time 1000)
           (store_of setup_vault_with_agent
              (ctx_of AGENT setup_vault_with_agent))
           _ eq_refl).
Defined.

(** ** What no transaction changes *)

Lemma step_frame l l' :
  step l l' ->
  vault_uid (l_vault l') = vault_uid (l_vault l) /\
  owner (l_vault l') = owner (l_vault l) /\
  (exists tail, l_events l' = l_events l ++ tail) /\
  l_time l <= l_time l' /\ l_fresh l <= l_fresh l'.
Proof.
  intros Hstep.
  destruct Hstep as [l c clock ctx s' Hty Hmono Hnow Hfresh Hrun].
  run_cases c Hrun; vault_fields; repeat split; try reflexivity; try lia;
    first [eexists; reflexivity | exists []; symmetry; apply app_nil_r].
Qed.

(** X4: whatever transactions follow one another, the vault keeps its
    identifier and its owner, the event stream only grows at its end, and
    neither the clock nor the identifier counter goes back. *)
Theorem identity_and_history_are_kept l l' :
  steps l l' ->
  vault_uid (l_vault l') = vault_uid (l_vault l) /\
  owner (l_vault l') = owner (l_vault l) /\
  (exists tail, l_events l' = l_events l ++ tail) /\
  l_time l <= l_time l' /\ l_fresh l <= l_fresh l'.
Proof.
  induction 1 as [l | l l' l'' _ IH Hstep].
  - repeat split; try reflexivity; try lia.
    exists []. symmetry. apply app_nil_r.
  - destruct IH as [Hid [Hown [[t1 Hev] [Ht Hf]]]].
    destruct (step_frame _ _ Hstep) as [Hid' [Hown' [[t2 Hev'] [Ht' Hf']]]].
    repeat split; try congruence; try lia.
    exists (t1 ++ t2). rewrite Hev', Hev. symmetry. apply app_assoc.
Qed.

Lemma identity_and_history_are_kept_witness :
  owner (l_vault after_one_withdrawal) = OWNER.
Proof.
  refine (proj1 (proj2 (identity_and_history_are_kept setup_vault_with_agent
                          after_one_withdrawal _))).
  apply (steps_more _ setup_vault_with_agent); [apply steps_refl|].
  apply (step_call setup_vault_with_agent
           (AgentWithdraw the_agent_cap ONE_SUI ACTION_SWAP) (at_time 1000)
           (ctx_of AGENT setup_vault_with_agent)).
  - split; typed.
  - cbn. lia.
  - typed.
  - cbn. lia.
  - reflexivity.
Defined.

(** ** Minting *)

Lemma index_of_last l e :
  ~ In e l -> index_of (l ++ [e]) e = (true, List.length l).
Proof.
  induction l as [|x l IH]; cbn; intros Hout.
  - now rewrite Z.eqb_refl.
  - destruct (x =? e) eqn:E; [apply Z.eqb_eq in E; tauto|].
    rewrite IH by tauto. reflexivity.
Qed.

Lemma remove_last l e : remove (l ++ [e]) (List.length l) = l.
Proof. induction l as [|x l IH]; cbn; [reflexivity | now rewrite IH]. Qed.

(** X5: a successful [create_agent_cap] transfers to the agent one
    capability that is bound to the vault and entered in the registry, so
    that no [agent_withdraw] presenting it fails with [InvalidCapability];
    the capabilities authorized before stay authorized, and balance,
    policy and counters are as they were. *)
Theorem minted_capability_is_authorized oc agent s s' :
  create_agent_cap oc agent s = Done tt s' ->
  exists cap,
    s_transfers s' = s_transfers s ++ [(AgentCapObject cap, agent)] /\
    agent_cap_id cap = fresh (s_ctx s) /\
    agent_cap_vault_id cap = object_id (s_vault s') /\
    authorized_caps (s_vault s') = authorized_caps (s_vault s) ++ [agent_cap_id cap] /\
    balance_sui (s_vault s') = balance_sui (s_vault s) /\
    policy (s_vault s') = policy (s_vault s) /\
    total_spent (s_vault s') = total_spent (s_vault s) /\
    tx_count (s_vault s') = tx_count (s_vault s) /\
    last_tx_time (s_vault s') = last_tx_time (s_vault s) /\
    forall amount action clock s'',
      s_vault s'' = s_vault s' ->
      verdict (agent_withdraw cap amount action clock s'')
      <> Some (rejected InvalidCapability).
Proof.
  intros Hrun. rewrite create_agent_cap_flat in Hrun. cbv zeta in Hrun.
  split_ifs Hrun. injection Hrun as <-.
  eexists. split; [reflexivity|]. repeat (split; [reflexivity|]).
  intros amount action clock s'' Hs.
  rewrite agent_withdraw_flat. cbv zeta. rewrite Hs.
  vault_fields. cbn [agent_cap_vault_id agent_cap_id agent_cap_uid to_inner].
  rewrite Z.eqb_refl.
  assert (Hmem : member (fresh (s_ctx s))
                   (authorized_caps (s_vault s) ++ [fresh (s_ctx s)]) = true).
  { apply member_In. apply in_or_app. right. now left. }
  rewrite Hmem. cbn [negb].
  repeat match goal with
  | |- context [if ?b then _ else _] => destruct b
  end; cbn; discriminate.
Qed.

Lemma minted_capability_is_authorized_witness :
  exists cap,
    agent_cap_id cap = 102 /\ agent_cap_vault_id cap = 100 /\
    authorized_caps (l_vault setup_vault_with_agent) = [agent_cap_id cap].
Proof.
  destruct (minted_capability_is_authorized the_owner_cap AGENT
              (store_of setup_vault (ctx_of OWNER setup_vault)) _ eq_refl)
    as [cap [_ [Hid [Hv [Hcaps _]]]]].
  exists cap. repeat split; assumption.
Defined.

(** X6: revoking a capability right after it was minted restores the
    vault exactly, provided the new identifier was not in the registry
    (as on every reachable ledger, where identifiers are never reused). *)
Theorem mint_then_revoke_restores_the_vault oc agent s s1 :
  ~ In (fresh (s_ctx s)) (authorized_caps (s_vault s)) ->
  create_agent_cap oc agent s = Done tt s1 ->
  exists s2,
    revoke_agent_cap oc (fresh (s_ctx s)) s1 = Done tt s2 /\
    s_vault s2 = s_vault s.
Proof.
  intros Hnew Hrun. rewrite create_agent_cap_flat in Hrun. cbv zeta in Hrun.
  split_ifs Hrun. injection Hrun as <-.
  rewrite revoke_agent_cap_flat. cbv zeta.
  bool_to_Z. unfold object_id in *. vault_fields.
  rewrite E, Z.eqb_refl. cbn [negb].
  assert (Hmem : member (fresh (s_ctx s))
                   (authorized_caps (s_vault s) ++ [fresh (s_ctx s)]) = true).
  { apply member_In. apply in_or_app. right. now left. }
  rewrite Hmem. cbn [negb]. eexists. split; [reflexivity|].
  cbn [s_vault]. pose proof (index_of_last _ _ Hnew) as Hidx.
  unfold ID in *. rewrite Hidx. cbn [snd].
  rewrite remove_last. destruct (s_vault s). reflexivity.
Qed.

Lemma mint_then_revoke_restores_the_vault_witness :
  match create_agent_cap the_owner_cap AGENT
          (store_of setup_vault (ctx_of OWNER setup_vault)) with
  | Done _ s1 =>
      exists s2,
        revoke_agent_cap the_owner_cap 102 s1 = Done tt s2 /\
        s_vault s2 = l_vault setup_vault
  | Failed _ _ => False
  end.
Proof.
  exact (mint_then_revoke_restores_the_vault the_owner_cap AGENT
           (store_of setup_vault (ctx_of OWNER setup_vault))
           _ ltac:(intros []) eq_refl).
Defined.

(** ** Resetting the counters *)

(** X7: after [reset_counters] the whole budget is available again and
    the cooldown is waived: a withdrawal within the per-transaction limit,
    the budget and the balance, for a whitelisted action before expiry,
    succeeds whatever had been spent and however recent the last
    withdrawal was. *)
Theorem reset_reopens_the_budget oc s s' cap amount action clock :
  let v := s_vault s in
  reset_counters oc s = Done tt s' ->
  in_u64 (max_budget (policy v)) ->
  agent_cap_vault_id cap = object_id v ->
  In (agent_cap_id cap) (authorized_caps v) ->
  0 < amount ->
  amount <= max_per_tx (policy v) ->
  amount <= max_budget (policy v) ->
  amount <= value (balance_sui v) ->
  timestamp_ms clock < expires_at (policy v) ->
  In action (allowed_actions (policy v)) ->
  succeeds (agent_withdraw cap amount action clock s').
Proof.
  cbv zeta. intros Hrun [Hmb0 Hmb] Hbound Hin Hpos Hper Hbud Hbal Hexp Hact.
  rewrite reset_counters_flat in Hrun. cbv zeta in Hrun.
  split_ifs Hrun. injection Hrun as <-.
  rewrite agent_withdraw_flat. cbv zeta. unfold object_id in *. vault_fields.
  apply Z.eqb_eq in Hbound. apply member_In in Hin, Hact.
  apply Z.ltb_lt in Hpos, Hexp. apply Z.leb_le in Hper, Hbal.
  rewrite Hpos, Hbound, Hin, Hexp, Hper, Hact, Hbal.
  cbn [negb andb Z.ltb Z.compare].
  rewrite Z.sub_0_r, Z.add_0_l.
  assert (H1 : (0 <=? max_budget (policy (s_vault s))) = true)
    by (apply Z.leb_le; lia).
  assert (H2 : (amount <=? max_budget (policy (s_vault s))) = true)
    by (apply Z.leb_le; lia).
  assert (H3 : (amount <=? MAX_U64) = true) by (apply Z.leb_le; lia).
  rewrite H1, H2, H3. cbn [negb]. apply done_succeeds.
Qed.

Lemma reset_reopens_the_budget_witness :
  exists s',
    reset_counters the_owner_cap
      (store_of five_withdrawals (ctx_of OWNER five_withdrawals))
    = Done tt s' /\
    succeeds (agent_withdraw the_agent_cap ONE_SUI ACTION_SWAP
                (at_time 245001) s').
Proof.
  eassert (Hrun : reset_counters the_owner_cap
                    (store_of five_withdrawals (ctx_of OWNER five_withdrawals))
                  = Done tt _) by (vm_compute; reflexivity).
  eexists. split; [exact Hrun|].
  apply (reset_reopens_the_budget the_owner_cap _ _ the_agent_cap ONE_SUI
           ACTION_SWAP (at_time 245001) Hrun).
  - typed.
  - vm_compute. reflexivity.
  - vm_compute. left. reflexivity.
  - vm_compute. reflexivity.
  - vm_compute. discriminate.
  - vm_compute. discriminate.
  - vm_compute. discriminate.
  - vm_compute. reflexivity.
  - vm_compute. left. reflexivity.
Defined.

(** ** Two withdrawals in a row *)

(** X8: when two delegated withdrawals succeed one after the other, the
    second comes at least a cooldown after the first, and together they
    stay within the budget and the balance that the first one found. *)
Theorem consecutive_withdrawals_are_spaced_and_bounded
    cap1 a1 act1 clock1 cap2 a2 act2 clock2 s coin1 s1 coin2 s2 :
  let v := s_vault s in
  0 <= tx_count v ->
  agent_withdraw cap1 a1 act1 clock1 s = Done coin1 s1 ->
  agent_withdraw cap2 a2 act2 clock2 s1 = Done coin2 s2 ->
  cooldown_ms (policy v) <= timestamp_ms clock2 - timestamp_ms clock1 /\
  total_spent v + a1 + a2 <= max_budget (policy v) /\
  a1 + a2 <= value (balance_sui v) /\
  total_spent (s_vault s2) = total_spent v + a1 + a2 /\
  tx_count (s_vault s2) = tx_count v + 2 /\
  coin_value coin1 + coin_value coin2 = a1 + a2.
Proof.
  cbv zeta. intros Hcount H1 H2.
  rewrite agent_withdraw_flat in H1. cbv zeta in H1.
  split_ifs H1. injection H1 as <- <-.
  rewrite agent_withdraw_flat in H2. cbv zeta in H2.
  vault_fields.
  destruct (0 <? tx_count (s_vault s) + 1) eqn:Epos;
    [|apply Z.ltb_ge in Epos; lia].
  cbn [andb] in H2.
  split_ifs H2. injection H2 as <- <-.
  bool_to_Z. vault_fields. cbn [coin_value coin_balance value].
  repeat split; lia.
Qed.

Lemma consecutive_withdrawals_are_spaced_and_bounded_witness :
  exists coin1 s1 coin2 s2,
    agent_withdraw the_agent_cap ONE_SUI ACTION_SWAP (at_time 1000)
      (as_agent setup_vault_with_agent) = Done coin1 s1 /\
    agent_withdraw the_agent_cap ONE_SUI ACTION_SWAP (at_time 62000) s1
    = Done coin2 s2 /\
    total_spent (s_vault s2) = 0 + ONE_SUI + ONE_SUI.
Proof.
  destruct (agent_withdraw the_agent_cap ONE_SUI ACTION_SWAP (at_time 1000)
              (as_agent setup_vault_with_agent)) as [coin1 s1|f s1] eqn:H1.
  2: { vm_compute in H1. discriminate H1. }
  pose proof H1 as E1. vm_compute in E1. injection E1 as <- <-.
  match type of H1 with
  | _ = Done ?c ?s1 =>
      destruct (agent_withdraw the_agent_cap ONE_SUI ACTION_SWAP
                  (at_time 62000) s1) as [coin2 s2|f s2] eqn:H2
  end.
  2: { vm_compute in H2. discriminate H2. }
  do 4 eexists. split; [exact H1|]. split; [exact H2|].
  refine (proj1 (proj2 (proj2 (proj2
            (consecutive_withdrawals_are_spaced_and_bounded
               _ _ _ _ _ _ _ _ _ _ _ _ _ _ H1 H2))))).
  vm_compute. discriminate.
Defined.

(** ** Stopping the agent *)

(** X9: [update_policy] installs exactly the policy it is given and
    leaves balance, registry and counters alone; an empty whitelist, a
    per-transaction limit of zero, a budget not above what has been spent
    or an expiry not after the clock then stops every capability at once:
    no [agent_withdraw] succeeds. *)
Theorem update_policy_can_freeze_the_agent oc mb mp aa cd ex s s' :
  update_policy oc mb mp aa cd ex s = Done tt s' ->
  policy (s_vault s')
  = {| max_budget := mb; max_per_tx := mp; allowed_actions := aa;
       cooldown_ms := cd; expires_at := ex |} /\
  balance_sui (s_vault s') = balance_sui (s_vault s) /\
  authorized_caps (s_vault s') = authorized_caps (s_vault s) /\
  total_spent (s_vault s') = total_spent (s_vault s) /\
  tx_count (s_vault s') = tx_count (s_vault s) /\
  last_tx_time (s_vault s') = last_tx_time (s_vault s) /\
  forall cap amount action clock s'',
    s_vault s'' = s_vault s' ->
    aa = [] \/ mp = 0 \/ mb <= total_spent (s_vault s)
    \/ ex <= timestamp_ms clock ->
    ~ succeeds (agent_withdraw cap amount action clock s'').
Proof.
  intros Hrun. rewrite update_policy_flat in Hrun. cbv zeta in Hrun.
  split_ifs Hrun. injection Hrun as <-.
  repeat (split; [reflexivity|]).
  intros cap amount action clock s'' Hs Hfreeze [coin [s3 H]].
  rewrite agent_withdraw_flat in H. cbv zeta in H. rewrite Hs in H.
  vault_fields. split_ifs H. bool_to_Z.
  all: destruct Hfreeze as [-> | [-> | [Hb | Hx]]];
    [discriminate | lia | lia | lia].
Qed.

Lemma update_policy_can_freeze_the_agent_witness :
  exists s',
    update_policy the_owner_cap DEFAULT_MAX_BUDGET DEFAULT_MAX_PER_TX []
      DEFAULT_COOLDOWN_MS DEFAULT_EXPIRES_AT
      (store_of setup_vault_with_agent (ctx_of OWNER setup_vault_with_agent))
    = Done tt s' /\
    ~ succeeds (agent_withdraw the_agent_cap ONE_SUI ACTION_SWAP
                  (at_time 1000) s').
Proof.
  eassert (Hrun : update_policy the_owner_cap DEFAULT_MAX_BUDGET
                    DEFAULT_MAX_PER_TX [] DEFAULT_COOLDOWN_MS
                    DEFAULT_EXPIRES_AT
                    (store_of setup_vault_with_agent
                       (ctx_of OWNER setup_vault_with_agent))
                  = Done tt _) by (vm_compute; reflexivity).
  eexists. split; [exact Hrun|].
  refine (proj2 (proj2 (proj2 (proj2 (proj2 (proj2
            (update_policy_can_freeze_the_agent _ _ _ _ _ _ _ _ Hrun))))))
            the_agent_cap ONE_SUI ACTION_SWAP (at_time 1000) _ eq_refl _).
  left. reflexivity.
Defined.

(** X10: once the owner has taken everything out with [withdraw_all],
    which needs nothing but the owner capability, no [agent_withdraw]
    succeeds until funds are deposited again. *)
Theorem withdraw_all_leaves_nothing_to_the_agent oc s coin s' :
  withdraw_all oc s = Done coin s' ->
  value (balance_sui (s_vault s')) = 0 /\
  forall cap amount action clock s'',
    s_vault s'' = s_vault s' ->
    ~ succeeds (agent_withdraw cap amount action clock s'').
Proof.
  intros Hrun. rewrite withdraw_all_flat in Hrun. cbv zeta in Hrun.
  split_ifs Hrun. injection Hrun as <- <-.
  split; [cbn; lia|].
  intros cap amount action clock s'' Hs [coin [s3 H]].
  rewrite agent_withdraw_flat in H. cbv zeta in H. rewrite Hs in H.
  vault_fields. split_ifs H. bool_to_Z. lia.
Qed.

Lemma withdraw_all_leaves_nothing_to_the_agent_witness :
  exists coin s',
    withdraw_all the_owner_cap
      (store_of setup_vault_with_agent (ctx_of OWNER setup_vault_with_agent))
    = Done coin s' /\
    ~ succeeds (agent_withdraw the_agent_cap ONE_SUI ACTION_SWAP
                  (at_time 1000) s').
Proof.
  eassert (Hrun : withdraw_all the_owner_cap
                    (store_of setup_vault_with_agent
                       (ctx_of OWNER setup_vault_with_agent))
                  = Done _ _) by (vm_compute; reflexivity).
  do 2 eexists. split; [exact Hrun|].
  exact (proj2 (withdraw_all_leaves_nothing_to_the_agent _ _ _ _ Hrun)
           the_agent_cap ONE_SUI ACTION_SWAP (at_time 1000) _ eq_refl).
Defined.

(** ** After expiry *)

(** X12: from [expires_at] on nothing passes: [agent_withdraw] never
    succeeds at a clock at or after [expires_at], and the pre-check
    answers that the policy has expired, with or without an amount. *)
Theorem nothing_passes_after_expiry cap amount action clock s :
  let v := s_vault s in
  expires_at (policy v) <= timestamp_ms clock ->
  ~ succeeds (agent_withdraw cap amount action clock s) /\
  forall a,
    PolicyChecker.checkPolicy (snapshot v) action (timestamp_ms clock) a
    = PolicyChecker.deny "Policy has expired".
Proof.
  cbv zeta. intros Hexp. split.
  - intros [coin [s' H]]. rewrite agent_withdraw_flat in H. cbv zeta in H.
    split_ifs H. bool_to_Z. lia.
  - intros a. unfold PolicyChecker.checkPolicy, snapshot.
    cbn [PolicyChecker.policy PolicyChecker.expiresAt].
    apply Z.leb_le in Hexp. rewrite Hexp. reflexivity.
Qed.

Lemma nothing_passes_after_expiry_witness :
  ~ succeeds (agent_withdraw the_agent_cap ONE_SUI ACTION_SWAP
                (at_time (DEFAULT_EXPIRES_AT + 5))
                (as_agent setup_vault_with_agent)).
Proof.
  refine (proj1 (nothing_passes_after_expiry the_agent_cap ONE_SUI ACTION_SWAP
                   (at_time (DEFAULT_EXPIRES_AT + 5))
                   (as_agent setup_vault_with_agent) _)).
  vm_compute. discriminate.
Defined.

(** ** Failed calls *)

(** X14: when a public function aborts with a code, the code is one of
    the module's own nine and the store is as the call found it: every
    assert comes before the first write, and neither the bounds check of
    [vector::remove] nor [ENotEnough] of [balance::split] can be
    triggered. *)
Theorem aborts_are_the_modules_own c clock s location code s' :
  run c clock s = Failed (MoveAbort location code) s' ->
  s' = s /\ location = agent_vault_module /\
  exists k, code = failure_code k.
Proof.
  intros H.
  destruct c; cbn [run] in H; unfold bind in H;
    rewrite ?deposit_flat, ?withdraw_all_flat, ?withdraw_flat,
      ?reset_counters_flat, ?update_policy_flat, ?create_agent_cap_flat,
      ?revoke_agent_cap_flat, ?agent_withdraw_flat in H;
    cbv zeta in H;
    repeat match type of H with
    | context [if ?b then _ else _] => destruct b
    end;
    try discriminate H; unfold rejected in H; injection H as <- <- <-;
    (split; [reflexivity|]; split; [reflexivity|];
     first [ exists NotOwner; reflexivity
           | exists ZeroAmount; reflexivity
           | exists InvalidCapability; reflexivity
           | exists Expired; reflexivity
           | exists CooldownActive; reflexivity
           | exists PerOperationLimitExceeded; reflexivity
           | exists BudgetExceeded; reflexivity
           | exists ActionNotWhitelisted; reflexivity
           | exists InsufficientBalance; reflexivity ]).
Qed.

Lemma aborts_are_the_modules_own_witness :
  exists k, E_COOLDOWN = failure_code k.
Proof.
  refine (proj2 (proj2 (aborts_are_the_modules_own
            (AgentWithdraw the_agent_cap ONE_SUI ACTION_SWAP) (at_time 2000)
            (as_agent after_one_withdrawal) agent_vault_module E_COOLDOWN
            (as_agent after_one_withdrawal) _))).
  vm_compute. reflexivity.
Defined.

(** ** Reachable ledgers *)

(** X13: on every ledger that the public functions can produce, each
    field of the vault is a value of its Move type, no more operations
    are counted than units spent, the last withdrawal does not lie in the
    future, and the registry holds no identifier twice and none that is
    still to be handed out. *)
Theorem reachable_ledgers_are_well_formed l : reachable l -> ledger_inv l.
Proof.
  induction 1 as [coin mb mp aa cd ex clock ctx | l l' _ IH Hstep].
  - now apply create_vault_inv.
  - exact (step_inv _ _ IH Hstep).
Qed.

Lemma reachable_ledgers_are_well_formed_witness :
  tx_count (l_vault five_withdrawals) <= total_spent (l_vault five_withdrawals).
Proof.
  refine (inv_count _ (reachable_ledgers_are_well_formed five_withdrawals _)).
  unfold five_withdrawals, withdraw_one.
  repeat (apply after_reachable; [| split; typed | vm_compute; discriminate
                                  | typed]).
  apply setup_vault_reachable.
Defined.

(** ** The event stream *)

Lemma Forall_snoc {A} (P : A -> Prop) l x :
  Forall P l -> P x -> Forall P (l ++ [x]).
Proof. intros Hl Hx. apply Forall_app. split; [assumption | now constructor]. Qed.

(** X11: every event of a reachable ledger carries the identifier of the
    vault; an [AgentWithdrawal] reports a positive amount that is part of
    the reported [total_spent], a remaining budget and a count that are
    [u64] values with the count at least one, and an action that is a
    [u8]; a [Deposited] event never reports a balance below the amount
    deposited. *)
Theorem events_are_sound l :
  reachable l ->
  Forall (event_sound (object_id (l_vault l))) (l_events l).
Proof.
  induction 1 as [coin mb mp aa cd ex clock ctx | l l' Hreach IH Hstep].
  - cbn. constructor; [|constructor]. split; [reflexivity | exact I].
  - pose proof (reachable_inv _ Hreach)
      as [[Hbal Hmb Hmp Haa Hcd Hex Hsp Hlast Hcnt] Hc Htime Hnd Hold].
    destruct Hstep as [l c clock ctx s' Hty Hmono Hnow Hfresh Hrun].
    unfold in_u64 in *.
    run_cases c Hrun; cbn [call_typed] in Hty; unfold in_u64 in *;
      unfold object_id in *; vault_fields;
      try assumption; apply Forall_snoc; try assumption;
      unfold event_sound, withdrawal_event, object_id;
      cbn [event_vault_id]; (split; [reflexivity|]); try exact I; try lia.
    destruct Hty as [Ham Hact]. repeat split; try lia; apply Hact.
Qed.

Lemma events_are_sound_witness :
  Forall (event_sound 100) (l_events after_one_withdrawal).
Proof.
  exact (events_are_sound after_one_withdrawal after_one_withdrawal_reachable).
Defined.

(** * Further properties of the pre-check *)

(** X15: supplying an amount only adds checks.  A denial issued without
    an amount is issued unchanged, with the same reason, for every
    amount; so whatever is allowed with an amount is allowed without
    one. *)
Theorem amount_only_adds_checks vd action now a :
  (PolicyChecker.allowed (PolicyChecker.checkPolicy vd action now None)
   = false ->
   PolicyChecker.checkPolicy vd action now (Some a)
   = PolicyChecker.checkPolicy vd action now None) /\
  (PolicyChecker.allowed (PolicyChecker.checkPolicy vd action now (Some a))
   = true ->
   PolicyChecker.allowed (PolicyChecker.checkPolicy vd action now None)
   = true).
Proof.
  unfold PolicyChecker.checkPolicy.
  destruct (PolicyChecker.expiresAt (PolicyChecker.policy vd) <=? now);
    [split; [reflexivity | discriminate]|].
  destruct (0 <? PolicyChecker.txCount vd);
    [destruct (now - PolicyChecker.lastTxTime vd
               <? PolicyChecker.cooldownMs (PolicyChecker.policy vd));
     [split; [reflexivity | discriminate]|]|].
  all: destruct (negb (PolicyChecker.includes
                         (PolicyChecker.allowedActions
                            (PolicyChecker.policy vd)) action));
    [split; [reflexivity | discriminate]|].
  all: split; [discriminate | reflexivity].
Qed.

Lemma amount_only_adds_checks_witness :
  PolicyChecker.checkPolicy (snapshot (l_vault after_one_withdrawal))
    ACTION_SWAP 2000 (Some ONE_SUI)
  = PolicyChecker.checkPolicy (snapshot (l_vault after_one_withdrawal))
      ACTION_SWAP 2000 None.
Proof.
  exact (proj1 (amount_only_adds_checks
                  (snapshot (l_vault after_one_withdrawal))
                  ACTION_SWAP 2000 ONE_SUI) eq_refl).
Defined.

(** X16: on a vault whose number-typed fields are safe integers, at a
    clock and for an action that are safe integers too (so that the
    snapshot is the one [getVault] returns and the pre-check computes
    exactly), the pre-check never turns down a withdrawal that the
    contract accepts: whenever [agent_withdraw] succeeds, the pre-check
    run on the snapshot of that vault with the same amount, action and
    time passes, and it passes without an amount as well. *)
Theorem precheck_never_denies_a_success cap amount action clock s :
  snapshot_exact (s_vault s) ->
  safe_natural (timestamp_ms clock) ->
  safe_natural action ->
  succeeds (agent_withdraw cap amount action clock s) ->
  forall a, a = Some amount \/ a = None ->
  PolicyChecker.checkPolicy (snapshot (s_vault s)) action
    (timestamp_ms clock) a
  = {| PolicyChecker.allowed := true;
       PolicyChecker.reason := "Policy check passed" |}.
Proof.
  intros _ _ _ [coin [s' H]] a Ha.
  rewrite agent_withdraw_flat in H. cbv zeta in H. split_ifs H.
  bool_to_Z.
  rewrite checkPolicy_first_violated.
  assert (Hnone : first_violated
                    (mirror_checks (snapshot (s_vault s)) action
                       (timestamp_ms clock) a) = None).
  { unfold mirror_checks, snapshot, first_violated.
    cbn [app PolicyChecker.policy PolicyChecker.expiresAt
         PolicyChecker.txCount PolicyChecker.cooldownMs
         PolicyChecker.lastTxTime PolicyChecker.allowedActions
         PolicyChecker.maxPerTx PolicyChecker.maxBudget
         PolicyChecker.totalSpent PolicyChecker.balance].
    apply Z.ltb_lt in E2. rewrite E2, E8.
    assert (Hcool : implb (0 <? tx_count (s_vault s))
                      (cooldown_ms (policy (s_vault s))
                       <=? timestamp_ms clock - last_tx_time (s_vault s))
                    = true).
    { destruct (0 <? tx_count (s_vault s)); [|reflexivity].
      cbn [andb implb] in *. bool_to_Z. apply Z.leb_le. lia. }
    rewrite Hcool.
    destruct Ha as [-> | ->]; [|reflexivity].
    apply Z.ltb_lt in E. apply Z.leb_le in E5, E7, E9.
    now rewrite E, E5, E7, E9. }
  now rewrite Hnone.
Qed.

Lemma precheck_never_denies_a_success_witness :
  PolicyChecker.checkPolicy (snapshot (l_vault setup_vault_with_agent))
    ACTION_SWAP 1000 (Some ONE_SUI)
  = {| PolicyChecker.allowed := true;
       PolicyChecker.reason := "Policy check passed" |}.
Proof.
  refine (precheck_never_denies_a_success the_agent_cap ONE_SUI ACTION_SWAP
            (at_time 1000) (as_agent setup_vault_with_agent) _ _ _ _
            (Some ONE_SUI) (or_introl eq_refl)).
  - unfold snapshot_exact, safe_natural.
    repeat first [apply Forall_nil | apply Forall_cons | split];
      vm_compute; discriminate.
  - split; vm_compute; discriminate.
  - split; vm_compute; discriminate.
  - eexists. eexists. vm_compute. reflexivity.
Defined.

Lemma ceil_div_1000_bounds x :
  1000 * (PolicyChecker.ceil_div_1000 x - 1) < x
  <= 1000 * PolicyChecker.ceil_div_1000 x.
Proof.
  unfold PolicyChecker.ceil_div_1000.
  pose proof (Z.div_mod (- x) 1000 ltac:(lia)) as Hdm.
  pose proof (Z.mod_pos_bound (- x) 1000 ltac:(lia)) as Hm.
  lia.
Qed.

(** X17: for a cooldown, a time of last use and clocks that are safe
    integers, the last use not after the clock (so that the pre-check
    computes the remaining time exactly): when the pre-check denies for
    cooldown, the number of seconds it quotes is the remaining time
    rounded up to the next full second: it is at least one, less than a
    second more than what remains, and waiting that long is enough, for
    the cooldown no longer stands in the way (an unexpired, whitelisted
    action then passes the pre-check without an amount). *)
Theorem cooldown_hint_is_sufficient vd action now amount :
  let p := PolicyChecker.policy vd in
  let remaining := PolicyChecker.cooldownMs p
                   - (now - PolicyChecker.lastTxTime vd) in
  let secs := PolicyChecker.ceil_div_1000 remaining in
  safe_natural (PolicyChecker.cooldownMs p) ->
  safe_natural (PolicyChecker.lastTxTime vd) ->
  safe_natural now ->
  PolicyChecker.lastTxTime vd <= now ->
  now < PolicyChecker.expiresAt p ->
  0 < PolicyChecker.txCount vd ->
  now - PolicyChecker.lastTxTime vd < PolicyChecker.cooldownMs p ->
  PolicyChecker.checkPolicy vd action now amount
  = PolicyChecker.deny
      ("Cooldown active: " ++ PolicyChecker.show secs ++ "s remaining") /\
  1 <= secs /\
  1000 * (secs - 1) < remaining <= 1000 * secs /\
  forall later,
    safe_natural later ->
    now + 1000 * secs <= later ->
    later < PolicyChecker.expiresAt p ->
    PolicyChecker.includes (PolicyChecker.allowedActions p) action = true ->
    PolicyChecker.allowed (PolicyChecker.checkPolicy vd action later None)
    = true.
Proof.
  cbv zeta. intros _ _ _ _ Hexp Hcount Hcool.
  pose proof (ceil_div_1000_bounds
                (PolicyChecker.cooldownMs (PolicyChecker.policy vd)
                 - (now - PolicyChecker.lastTxTime vd))) as Hb.
  repeat apply conj; try lia.
  - unfold PolicyChecker.checkPolicy.
    destruct (PolicyChecker.expiresAt (PolicyChecker.policy vd) <=? now)
      eqn:E1; [apply Z.leb_le in E1; lia|].
    apply Z.ltb_lt in Hcount, Hcool. rewrite Hcount, Hcool. reflexivity.
  - intros later _ Hlater Hexp' Hact.
    unfold PolicyChecker.checkPolicy.
    destruct (PolicyChecker.expiresAt (PolicyChecker.policy vd) <=? later)
      eqn:E1; [apply Z.leb_le in E1; lia|].
    destruct (later - PolicyChecker.lastTxTime vd
              <? PolicyChecker.cooldownMs (PolicyChecker.policy vd)) eqn:E2;
      [apply Z.ltb_lt in E2; lia|].
    rewrite Hact. cbn [negb].
    destruct (0 <? PolicyChecker.txCount vd); reflexivity.
Qed.

Lemma cooldown_hint_is_sufficient_witness :
  PolicyChecker.checkPolicy (snapshot (l_vault after_one_withdrawal))
    ACTION_SWAP 11000 None
  = PolicyChecker.deny "Cooldown active: 50s remaining".
Proof.
  refine (proj1 (cooldown_hint_is_sufficient
                   (snapshot (l_vault after_one_withdrawal))
                   ACTION_SWAP 11000 None _ _ _ _ _ _ _));
    first [reflexivity | split; vm_compute; discriminate
          | vm_compute; discriminate].
Defined.

(** * Properties of the ledger reader *)

(** X18: [unwrapFields] never returns a primitive, [null] or
    [undefined], so that reading a property of its result cannot fail: an
    object wrapped in [{ fields: ... }] is unwrapped, any other object is
    returned as it is, and anything else is wrapped as [{ value: ... }]. *)
Theorem unwrapFields_yields_an_object val :
  Service.is_object (Service.unwrapFields val) = true /\
  (Service.is_object val = false ->
   Service.unwrapFields val = Service.JObject [("value"%string, val)]) /\
  (Service.is_object val = true ->
   Service.is_object (Service.get val "fields") = false ->
   Service.unwrapFields val = val) /\
  (Service.is_object (Service.get val "fields") = true ->
   Service.unwrapFields val = Service.get val "fields").
Proof.
  unfold Service.unwrapFields.
  destruct val as [| | b | n | s | items | props];
    cbn [Service.is_object Service.has_property Service.get andb];
    repeat split; try reflexivity; try discriminate.
  - destruct (Service.lookup "fields" props) as [inner|]; [|reflexivity].
    destruct (Service.is_object inner) eqn:E; [exact E | reflexivity].
  - intros _ H. destruct (Service.lookup "fields" props) as [inner|];
      [|reflexivity]. now rewrite H.
  - intros H. destruct (Service.lookup "fields" props) as [inner|];
      [|discriminate H]. now rewrite H.
Qed.

Lemma unwrapFields_yields_an_object_witness :
  Service.unwrapFields (Service.JString "5000000000")
  = Service.JObject [("value"%string, Service.JString "5000000000")].
Proof.
  exact (proj1 (proj2 (unwrapFields_yields_an_object
                         (Service.JString "5000000000"))) eq_refl).
Defined.

Section ServiceProperties.

Variables bigint number : Type.
Variable BigInt_String : Service.JSValue -> option bigint.
Variable Number_ : Service.JSValue -> number.

Let parseVaultData := Service.parseVaultData bigint number BigInt_String Number_.
Let getVault := Service.getVault bigint number BigInt_String Number_.

(** X19: [parseVaultData] reads the same vault whether the RPC client
    nests the [balance_sui] and [policy] structs in [{ fields: ... }] or
    gives them flat, and whether the balance comes as [{ value: x }] or as
    the bare [x]; this holds for whatever the conversions make of the
    leaves. *)
Theorem parse_is_insensitive_to_nesting objectId bprops pprops rest :
  Service.lookup "fields" bprops = None ->
  Service.lookup "fields" pprops = None ->
  let flat :=
    Service.JObject (("balance_sui"%string, Service.JObject bprops)
                     :: ("policy"%string, Service.JObject pprops) :: rest) in
  let nested :=
    Service.JObject
      (("balance_sui"%string,
        Service.JObject [("fields"%string, Service.JObject bprops)])
       :: ("policy"%string,
           Service.JObject [("fields"%string, Service.JObject pprops)])
       :: rest) in
  parseVaultData objectId nested = parseVaultData objectId flat /\
  forall x,
    Service.is_object x = false ->
    parseVaultData objectId
      (Service.JObject (("balance_sui"%string, x) :: rest))
    = parseVaultData objectId
        (Service.JObject
           (("balance_sui"%string, Service.JObject [("value"%string, x)])
            :: rest)).
Proof.
  intros Hb Hp. cbv zeta. split.
  - unfold parseVaultData, Service.parseVaultData, Service.parsePolicy,
      Service.unwrapFields.
    cbn [Service.get Service.lookup String.eqb Ascii.eqb Bool.eqb
         Service.is_object Service.has_property andb].
    rewrite Hb, Hp. reflexivity.
  - intros x Hx.
    unfold parseVaultData, Service.parseVaultData, Service.unwrapFields.
    cbn [Service.get Service.lookup String.eqb Ascii.eqb Bool.eqb
         Service.is_object Service.has_property andb].
    rewrite Hx. reflexivity.
Qed.

(** X20: [getVault] guards every property read: on a response that is
    an object it answers "Vault not found" when the content is missing or
    otherwise falsy, and never fails with a [TypeError]; what it throws
    besides is "Expected moveObject content", "Missing fields in
    moveObject" or the [SyntaxError] of a conversion. *)
Theorem getVault_never_dereferences_null vaultId response :
  Service.nullish response = false ->
  (Service.falsy (Service.response_content response) = true ->
   getVault vaultId response
   = Service.Throws (Service.Error ("Vault not found: " ++ vaultId))) /\
  getVault vaultId response <> Service.Throws Service.TypeError /\
  forall e,
    getVault vaultId response = Service.Throws e ->
    e = Service.Error ("Vault not found: " ++ vaultId) \/
    e = Service.Error "Expected moveObject content" \/
    e = Service.Error "Missing fields in moveObject" \/
    exists input, e = Service.SyntaxError input.
Proof.
  intros Hresp.
  assert (Hall : forall e,
            getVault vaultId response = Service.Throws e ->
            e = Service.Error ("Vault not found: " ++ vaultId) \/
            e = Service.Error "Expected moveObject content" \/
            e = Service.Error "Missing fields in moveObject" \/
            exists input, e = Service.SyntaxError input).
  { intros e. unfold getVault, Service.getVault. rewrite Hresp.
    destruct (Service.falsy (Service.response_content response)) eqn:Hf;
      [intros [= <-]; auto|].
    unfold Service.extractFields.
    destruct (Service.nullish (Service.response_content response)) eqn:Hn.
    { destruct (Service.response_content response); try discriminate Hn;
        discriminate Hf. }
    destruct (negb _); [cbn; intros [= <-]; auto|].
    destruct (Service.falsy (Service.get _ "fields"));
      [cbn; intros [= <-]; auto|].
    cbn [Service.and_then].
    unfold Service.parseVaultData, Service.parsePolicy, Service.to_bigint.
    repeat match goal with
    | |- context [match BigInt_String ?x with _ => _ end] =>
        destruct (BigInt_String x); cbn [Service.and_then]
    end; intros [= <-] || discriminate; eauto. }
  split; [|split; [|exact Hall]].
  - intros Hf. unfold getVault, Service.getVault. now rewrite Hresp, Hf.
  - intros H. apply Hall in H as [H | [H | [H | [input H]]]]; discriminate H.
Qed.

End ServiceProperties.

Lemma parse_is_insensitive_to_nesting_witness :
  Service.parseVaultData Z Z decimal_string decimal "0xvault123"
    VAULT_FIELDS_NESTED
  = Service.parseVaultData Z Z decimal_string decimal "0xvault123"
      VAULT_FIELDS_FLAT.
Proof.
  exact (proj1 (parse_is_insensitive_to_nesting Z Z decimal_string decimal
                  "0xvault123"
                  [("value"%string, Service.JString "5000000000")]
                  fixture_policy fixture_rest eq_refl eq_refl)).
Defined.

Lemma getVault_never_dereferences_null_witness :
  Service.getVault Z Z decimal_string decimal "0xnonexistent"
    (Service.JObject [("data"%string, Service.JNull)])
  = Service.Throws (Service.Error "Vault not found: 0xnonexistent").
Proof.
  exact (proj1 (getVault_never_dereferences_null Z Z decimal_string decimal
                  "0xnonexistent"
                  (Service.JObject [("data"%string, Service.JNull)]) eq_refl)
               eq_refl).
Defined.

(** The fixtures of [service.test.ts]. *)

Example getVault_parses_the_flat_fixture :
  Service.getVault Z Z decimal_string decimal "0xvault123"
    (response_with VAULT_FIELDS_FLAT)
  = Service.Returns
      {| Service.id := "0xvault123";
         Service.owner := Service.JString "0xowner_address";
         Service.balance := 5000000000;
         Service.policy :=
           {| Service.maxBudget := 10000000000;
              Service.maxPerTx := 1000000000;
              Service.allowedActions := Service.JArray [Service.JNumber 0];
              Service.cooldownMs := 60000;
              Service.expiresAt := 1700000000000 |};
         Service.authorizedCaps :=
           Service.JArray [Service.JString "0xcap1"; Service.JString "0xcap2"];
         Service.totalSpent := 2000000000;
         Service.lastTxTime := 1699999000000;
         Service.txCount := 3 |}.
Proof. vm_compute. reflexivity. Qed.

Example getVault_rejects_a_package :
  Service.getVault Z Z decimal_string decimal "0xpackage"
    (Service.JObject
       [("data"%string,
         Service.JObject
           [("content"%string,
             Service.JObject [("dataType"%string, Service.JString "package");
                              ("fields"%string, Service.JObject [])])])])
  = Service.Throws (Service.Error "Expected moveObject content").
Proof. reflexivity. Qed.
